(** * Echo: the chat page, its capture adapters and the log relay

  A shallow embedding of the TypeScript sources

  - the chat page, component [ChatPage]             (module [ChatPage])
  - [components/FileUpload.tsx]                      (module [FileUpload])
  - [components/AudioRecorder.tsx]                   (module [AudioRecorder])
  - the log relay, [LogAnalysisService] and its controller
                                                     (module [LogAnalysisService])

  React state is explicit state passing.  Every [await] is a point where
  a handler is suspended and later resumed by an event, so the
  asynchronous handlers become a step function over events, and a session
  is a list of events. *)

From Stdlib Require Import ZArith List Sorted FinFun String Ascii Bool Lia.
From Stdlib Require Import Strings.Byte DecimalString DecimalZ SpecFloat.
Import ListNotations.

Set Warnings "-register-all".

Local Open Scope string_scope.
Local Open Scope list_scope.
Local Open Scope Z_scope.

(* ================================================================== *)
(** ** The JavaScript platform: values, numbers, errors *)

Module JS.

(** A value produced by [JSON.parse] (what [response.json()] resolves
    to).  Numbers are IEEE doubles; objects keep their members in
    textual order. *)
Inductive value : Type :=
| JNull
| JBool (b : bool)
| JNum (x : spec_float)
| JStr (s : string)
| JArr (items : list value)
| JObj (members : list (string * value)).

(** [JSON.parse] keeps the last member among duplicates of a key. *)
Fixpoint lookup (key : string) (members : list (string * value))
  : option value :=
  match members with
  | [] => None
  | (k, v) :: rest =>
      match lookup key rest with
      | Some w => Some w
      | None => if String.eqb k key then Some v else None
      end
  end.

(** The result of evaluating a property read [v.key]: a value,
    [undefined], or a thrown [TypeError] (reading a property of
    [null]).  Primitives and arrays have no property [response]. *)
Inductive property : Type :=
| Found (v : value)
| Undefined
| Throws.

Definition get (v : value) (key : string) : property :=
  match v with
  | JNull => Throws
  | JObj members =>
      match lookup key members with
      | Some w => Found w
      | None => Undefined
      end
  | _ => Undefined
  end.

(** ToBoolean. *)
Definition truthy (v : value) : bool :=
  match v with
  | JNull => false
  | JBool b => b
  | JNum (S754_zero _) => false
  | JNum S754_nan => false
  | JNum _ => true
  | JStr s => negb (String.eqb s EmptyString)
  | JArr _ => true
  | JObj _ => true
  end.

(** [a || b] where [a] is the outcome of a property read. *)
Definition or_else (a : property) (b : value) : option value :=
  match a with
  | Throws => None
  | Undefined => Some b
  | Found v => if truthy v then Some v else Some b
  end.

(** [n.toString()] for an integral number such as [Date.now()]. *)
Definition Z_toString (z : Z) : string :=
  NilZero.string_of_int (Z.to_int z).

(** The recorder computes a duration as
    [(Date.now() - startTimeRef.current) / 1000]: the double nearest to
    a whole number of milliseconds over 1000.  Such a number is kept as
    its millisecond count. *)
Record Seconds : Type := { millis : Z }.

Definition digit (d : Z) : string := Z_toString d.

(** The decimals of [frac / 1000] for [0 < frac < 1000], without
    trailing zeros. *)
Definition fraction_digits (frac : Z) : string :=
  let d1 := frac / 100 in
  let d2 := (frac / 10) mod 10 in
  let d3 := frac mod 10 in
  if negb (Z.eqb d3 0) then digit d1 ++ digit d2 ++ digit d3
  else if negb (Z.eqb d2 0) then digit d1 ++ digit d2
  else digit d1.

(** Number::toString on [ms / 1000].  For fewer than sixteen
    significant digits (every duration below 10^12 seconds) the
    shortest decimal that reads back as the double is the decimal
    expansion of the quotient itself, printed without exponent. *)
Definition Seconds_toString (d : Seconds) : string :=
  let a := Z.abs (millis d) in
  let whole := a / 1000 in
  let frac := a mod 1000 in
  (if Z.ltb (millis d) 0 then "-" else EmptyString)
    ++ Z_toString whole
    ++ (if Z.eqb frac 0 then EmptyString else "." ++ fraction_digits frac).

(** [Math.round] on [ms / 1000]: the nearest integer, ties upwards. *)
Definition Math_round (d : Seconds) : Z := (millis d + 500) / 1000.

(** A thrown or rejected [Error] object. *)
Record Error : Type := { name : string; message : string }.

Definition mkError (msg : string) : Error :=
  {| name := "Error"; message := msg |}.

(** What V8 raises for [null.response]. *)
Definition null_read (key : string) : Error :=
  {| name := "TypeError";
     message := "Cannot read properties of null (reading '" ++ key ++ "')" |}.

(** The double quote character, for template literals that contain it. *)
Definition dquote : string := String (ascii_of_nat 34) EmptyString.

(** [s.padStart(n, c)] for a pad string [c] of one character. *)
Fixpoint repeat_string (c : string) (k : nat) : string :=
  match k with
  | O => EmptyString
  | S k' => c ++ repeat_string c k'
  end.

Definition padStart (n : nat) (c : string) (s : string) : string :=
  repeat_string c (n - String.length s) ++ s.

End JS.

(** [File] and [Blob] of the File API. *)
Module File.
Record t : Type := { name : string; size : Z; type : string }.
End File.

Module Blob.
Record t : Type := { data : list byte; type : string }.
Definition size (b : t) : Z := Z.of_nat (List.length (data b)).
End Blob.

(** [fetch]: the request sent, and how the returned promises settle. *)
Module Fetch.

Inductive part : Type :=
| Field (v : string)
| FilePart (f : File.t)
| BlobPart (b : Blob.t) (filename : string).

Inductive body : Type :=
| Json (v : JS.value)                       (* JSON.stringify(v) *)
| FormData (entries : list (string * part)).

Record request : Type :=
  { url : string;
    method : string;
    headers : list (string * string);
    payload : body }.

(** [response.ok]: the status is in the range 200-299. *)
Definition ok (status : Z) : bool := (200 <=? status) && (status <=? 299).

(** The promise returned by [fetch]. *)
Inductive fetched : Type :=
| Rejected (e : JS.Error)
| Responded (status : Z) (statusText : string).

(** The promise returned by [response.json()]. *)
Inductive parsed : Type :=
| JsonRejected (e : JS.Error)
| Parsed (v : JS.value).

End Fetch.

(* ================================================================== *)
(** ** FileUpload.tsx *)

Module FileUpload.

Definition allowedTypes : list string :=
  [ "text/plain";
    "application/pdf";
    "application/msword";
    "application/vnd.openxmlformats-officedocument.wordprocessingml.document";
    "image/jpeg";
    "image/png";
    "image/gif";
    "text/csv" ].

(** [allowedTypes.includes(x)] *)
Definition includes (l : list string) (x : string) : bool :=
  existsb (String.eqb x) l.

(** What [handleFileSelect] does with a file: a blocking [alert], or the
    call of the [onFileUpload] property. *)
Inductive outcome : Type :=
| Alert (notice : string)
| OnFileUpload (f : File.t).

Definition handleFileSelect (f : File.t) : outcome :=
  if File.size f >? 10 * 1024 * 1024 then
    Alert "File size must be less than 10MB"
  else if negb (includes allowedTypes (File.type f)) then
    Alert "File type not supported. Please upload PDF, DOC, DOCX, TXT, CSV, or image files."
  else
    OnFileUpload f.

(** [handleDragOver], [handleDragLeave]: the new value of [isDragging]. *)
Definition handleDragOver (isDragging : bool) : bool := true.

Definition handleDragLeave (isDragging : bool) : bool := false.

(** [handleDrop]: [setIsDragging(false)], then
    [const file = e.dataTransfer.files[0]; if (file) handleFileSelect(file)].
    The result is the new [isDragging] and what [handleFileSelect] did, if
    it was called. *)
Definition handleDrop (files : list File.t) (isDragging : bool)
  : bool * option outcome :=
  (false,
   match files with
   | [] => None
   | f :: _ => Some (handleFileSelect f)
   end).

(** [handleFileChange]: [e.target.files?.[0]] ([files] may be [null]),
    then the input is reset: the result holds the new [value] of the
    input element. *)
Definition handleFileChange (files : option (list File.t))
  : string * option outcome :=
  (EmptyString,
   match files with
   | Some (f :: _) => Some (handleFileSelect f)
   | _ => None
   end).

(** A file that gets through [handleFileSelect]. *)
Definition valid (f : File.t) : Prop :=
  File.size f <= 10 * 1024 * 1024 /\ In (File.type f) allowedTypes.

End FileUpload.

(* ================================================================== *)
(** ** The chat page *)

Module ChatPage.

Inductive Sender : Type := user | ai.
Inductive MessageType : Type := text | file | audio.

(** [interface Message].  The declared type of [content] is [string], but
    [data.response] is stored unchecked, so the field holds a value. *)
Record Message : Type :=
  { id : string;
    content : JS.value;
    sender : Sender;
    timestamp : Z;
    type : MessageType;
    fileName : option string;
    fileSize : option Z;
    audioDuration : option JS.Seconds }.

(** The two clock readings taken when a message is built: [Date.now()]
    for the id and [new Date()] for the timestamp. *)
Record clock : Type := { Date_now : Z; new_Date : Z }.

(** An activation of one of the three asynchronous handlers, with its
    arguments ... *)
Inductive call : Type :=
| InSendMessage (content : string)
| InFileUpload (f : File.t)
| InAudioUpload (audioBlob : Blob.t) (duration : JS.Seconds).

(** ... and the [await] at which it is suspended. *)
Inductive point : Type :=
| AtFetch      (* await fetch('/analyze', ...) *)
| AtJson       (* await response.json() *)
| Returned.

(** The component state ([messages], [isTyping]), the suspended handler
    activations, and the effects on the outside: requests sent,
    [console.error] lines, [alert] notices. *)
Record state : Type :=
  { messages : list Message;
    isTyping : bool;
    calls : list (call * point);
    requests : list Fetch.request;
    console : list (string * JS.Error);
    alerts : list string }.

Definition seed (d : Z) : Message :=
  {| id := "1";
     content := JS.JStr "Hello! I'm your AI assistant. How can I help you today?";
     sender := ai;
     timestamp := d;
     type := text;
     fileName := None; fileSize := None; audioDuration := None |}.

(** The state after the first render, [d] being [new Date()] then. *)
Definition init (d : Z) : state :=
  {| messages := [seed d];
     isTyping := false;
     calls := [];
     requests := [];
     console := [];
     alerts := [] |}.

(** [userMessage], [fileMessage], [audioMessage] *)
Definition userMessage (c : clock) (k : call) : Message :=
  match k with
  | InSendMessage text_content =>
      {| id := JS.Z_toString (Date_now c);
         content := JS.JStr text_content;
         sender := user;
         timestamp := new_Date c;
         type := text;
         fileName := None; fileSize := None; audioDuration := None |}
  | InFileUpload f =>
      {| id := JS.Z_toString (Date_now c);
         content := JS.JStr ("Uploaded file: " ++ File.name f);
         sender := user;
         timestamp := new_Date c;
         type := file;
         fileName := Some (File.name f);
         fileSize := Some (File.size f);
         audioDuration := None |}
  | InAudioUpload _ duration =>
      {| id := JS.Z_toString (Date_now c);
         content := JS.JStr "Voice message recorded";
         sender := user;
         timestamp := new_Date c;
         type := audio;
         fileName := None; fileSize := None;
         audioDuration := Some duration |}
  end.

(** The argument of [fetch]. *)
Definition request_of (k : call) : Fetch.request :=
  match k with
  | InSendMessage text_content =>
      {| Fetch.url := "/analyze";
         Fetch.method := "POST";
         Fetch.headers := [("Content-Type", "application/json")];
         Fetch.payload :=
           Fetch.Json (JS.JObj [("message", JS.JStr text_content);
                                ("type", JS.JStr "text")]) |}
  | InFileUpload f =>
      {| Fetch.url := "/analyze";
         Fetch.method := "POST";
         Fetch.headers := [];
         Fetch.payload :=
           Fetch.FormData [("file", Fetch.FilePart f);
                           ("type", Fetch.Field "file")] |}
  | InAudioUpload audioBlob duration =>
      {| Fetch.url := "/analyze";
         Fetch.method := "POST";
         Fetch.headers := [];
         Fetch.payload :=
           Fetch.FormData
             [("audio", Fetch.BlobPart audioBlob "voice-message.webm");
              ("type", Fetch.Field "audio");
              ("duration", Fetch.Field (JS.Seconds_toString duration))] |}
  end.

(** The right operand of [data.response || ...]. *)
Definition fallback (k : call) : string :=
  match k with
  | InSendMessage _ =>
      "I received your message and processed it successfully."
  | InFileUpload f =>
      "I've received and processed your file " ++ JS.dquote
        ++ File.name f ++ JS.dquote ++ "."
  | InAudioUpload _ duration =>
      "I've received and processed your voice message ("
        ++ JS.Seconds_toString duration ++ "s)."
  end.

(** The content of [errorMessage] in the [catch] block. *)
Definition errorContent (k : call) : string :=
  match k with
  | InSendMessage _ =>
      "Sorry, I encountered an error while processing your message. Please try again."
  | InFileUpload _ =>
      "Sorry, I encountered an error while uploading your file. Please try again."
  | InAudioUpload _ _ =>
      "Sorry, I encountered an error while processing your voice message. Please try again."
  end.

(** The first argument of [console.error] in the [catch] block. *)
Definition errorLabel (k : call) : string :=
  match k with
  | InSendMessage _ => "Error sending message:"
  | InFileUpload _ => "Error uploading file:"
  | InAudioUpload _ _ => "Error uploading audio:"
  end.

(** [aiMessage] and [errorMessage] *)
Definition aiMessage (c : clock) (v : JS.value) : Message :=
  {| id := JS.Z_toString (Date_now c + 1);
     content := v;
     sender := ai;
     timestamp := new_Date c;
     type := text;
     fileName := None; fileSize := None; audioDuration := None |}.

Fixpoint set_point (n : nat) (p : point) (l : list (call * point))
  : list (call * point) :=
  match l, n with
  | [], _ => []
  | (k, _) :: rest, O => (k, p) :: rest
  | x :: rest, S n' => x :: set_point n' p rest
  end.

(** The synchronous prefix of a handler, up to its first [await]:
    [setMessages(prev => [...prev, m])], [setIsTyping(true)], and the call
    of [fetch]. *)
Definition begin (c : clock) (k : call) (st : state) : state :=
  {| messages := messages st ++ [userMessage c k];
     isTyping := true;
     calls := calls st ++ [(k, AtFetch)];
     requests := requests st ++ [request_of k];
     console := console st;
     alerts := alerts st |}.

Definition handleSendMessage (c : clock) (text_content : string) : state -> state :=
  begin c (InSendMessage text_content).

Definition handleFileUpload (c : clock) (f : File.t) : state -> state :=
  begin c (InFileUpload f).

Definition handleAudioUpload (c : clock) (audioBlob : Blob.t)
  (duration : JS.Seconds) : state -> state :=
  begin c (InAudioUpload audioBlob duration).

(** The last [setMessages] of activation [n], then the [finally] block. *)
Definition finish (n : nat) (m : Message) (logged : list (string * JS.Error))
  (st : state) : state :=
  {| messages := messages st ++ [m];
     isTyping := false;
     calls := set_point n Returned (calls st);
     requests := requests st;
     console := console st ++ logged;
     alerts := alerts st |}.

(** The [catch (error)] block. *)
Definition catch (c : clock) (n : nat) (k : call) (error : JS.Error)
  : state -> state :=
  finish n (aiMessage c (JS.JStr (errorContent k))) [(errorLabel k, error)].

Definition suspend_at_json (n : nat) (st : state) : state :=
  {| messages := messages st;
     isTyping := isTyping st;
     calls := set_point n AtJson (calls st);
     requests := requests st;
     console := console st;
     alerts := alerts st |}.

(** Resumption after [await fetch(...)]. *)
Definition after_fetch (c : clock) (n : nat) (k : call) (r : Fetch.fetched)
  (st : state) : state :=
  match r with
  | Fetch.Rejected e => catch c n k e st
  | Fetch.Responded status _ =>
      if negb (Fetch.ok status) then
        catch c n k
          (JS.mkError ("HTTP error! status: " ++ JS.Z_toString status)) st
      else suspend_at_json n st
  end.

(** Resumption after [await response.json()]. *)
Definition after_json (c : clock) (n : nat) (k : call) (r : Fetch.parsed)
  (st : state) : state :=
  match r with
  | Fetch.JsonRejected e => catch c n k e st
  | Fetch.Parsed data =>
      match JS.or_else (JS.get data "response") (JS.JStr (fallback k)) with
      | Some v => finish n (aiMessage c v) [] st
      | None => catch c n k (JS.null_read "response") st
      end
  end.

(** [window.alert] *)
Definition alert (notice : string) (st : state) : state :=
  {| messages := messages st;
     isTyping := isTyping st;
     calls := calls st;
     requests := requests st;
     console := console st;
     alerts := alerts st ++ [notice] |}.

(** [<FileUpload onFileUpload={handleFileUpload} />]: a picked or dropped
    file goes through [handleFileSelect] first. *)
Definition selectFile (c : clock) (f : File.t) (st : state) : state :=
  match FileUpload.handleFileSelect f with
  | FileUpload.Alert notice => alert notice st
  | FileUpload.OnFileUpload f' => handleFileUpload c f' st
  end.

(** What can happen to the page.  A settlement names the activation it
    resumes by its position in [calls]. *)
Inductive event : Type :=
| TextSent (c : clock) (text_content : string)
| FileSelected (c : clock) (f : File.t)
| AudioRecorded (c : clock) (audioBlob : Blob.t) (duration : JS.Seconds)
| FetchSettled (c : clock) (n : nat) (r : Fetch.fetched)
| JsonSettled (c : clock) (n : nat) (r : Fetch.parsed).

Definition step (st : state) (e : event) : option state :=
  match e with
  | TextSent c text_content => Some (handleSendMessage c text_content st)
  | FileSelected c f => Some (selectFile c f st)
  | AudioRecorded c audioBlob duration =>
      Some (handleAudioUpload c audioBlob duration st)
  | FetchSettled c n r =>
      match nth_error (calls st) n with
      | Some (k, AtFetch) => Some (after_fetch c n k r st)
      | _ => None
      end
  | JsonSettled c n r =>
      match nth_error (calls st) n with
      | Some (k, AtJson) => Some (after_json c n k r st)
      | _ => None
      end
  end.

Fixpoint run (st : state) (tr : list event) : option state :=
  match tr with
  | [] => Some st
  | e :: rest =>
      match step st e with
      | Some st' => run st' rest
      | None => None
      end
  end.

(** *** Observations on states and traces *)

Definition in_flight (p : point) : bool :=
  match p with
  | Returned => false
  | _ => true
  end.

(** The number of handler activations still suspended at an [await]. *)
Definition suspended (l : list (call * point)) : nat :=
  List.length (filter (fun kp => in_flight (snd kp)) l).

Definition pending (st : state) : nat := suspended (calls st).

(** The user message which an event appends at once, if it is a submit
    action that gets through validation. *)
Definition submitted (e : event) : list Message :=
  match e with
  | TextSent c text_content => [userMessage c (InSendMessage text_content)]
  | FileSelected c f =>
      match FileUpload.handleFileSelect f with
      | FileUpload.OnFileUpload f' => [userMessage c (InFileUpload f')]
      | FileUpload.Alert _ => []
      end
  | AudioRecorded c audioBlob duration =>
      [userMessage c (InAudioUpload audioBlob duration)]
  | _ => []
  end.

Definition submissions (tr : list event) : nat :=
  List.length (flat_map submitted tr).

Definition is_user (m : Message) : bool :=
  match sender m with
  | user => true
  | ai => false
  end.

(** A trace in which no submit action happens while an earlier dispatch is
    still pending. *)
Fixpoint sequential (st : state) (tr : list event) : bool :=
  match tr with
  | [] => true
  | e :: rest =>
      match submitted e with
      | [] => true
      | _ :: _ => Nat.eqb (pending st) 0
      end
      && match step st e with
         | Some st' => sequential st' rest
         | None => true
         end
  end.

(** The seed, then one user and one assistant message per action. *)
Fixpoint alternating (n : nat) : list Sender :=
  match n with
  | O => [ai]
  | S n' => alternating n' ++ [user; ai]
  end.

(** The number an id stands for: the id of a message built at clock
    reading [t] is [t] for a user message and [t + 1] for an assistant
    message. *)
Definition id_number (m : Message) : option Z :=
  match NilZero.int_of_string (id m) with
  | Some d => Some (Z.of_int d)
  | None => None
  end.

(** The three things an event can do to the page. *)
Inductive effect (st : state) (e : event) (st' : state) : Prop :=
| Dispatches (m : Message) :
    submitted e = [m] -> sender m = user ->
    messages st' = messages st ++ [m] ->
    pending st' = S (pending st) ->
    isTyping st' = true ->
    effect st e st'
| Keeps :
    submitted e = [] ->
    messages st' = messages st ->
    pending st' = pending st ->
    isTyping st' = isTyping st ->
    effect st e st'
| Settles (m : Message) :
    submitted e = [] -> sender m = ai -> type m = text ->
    messages st' = messages st ++ [m] ->
    pending st = S (pending st') ->
    isTyping st' = false ->
    effect st e st'.

(** While no submit action overlaps a pending dispatch, at most one
    activation is pending, the flag is up exactly then, and the senders
    alternate up to the user message of the pending one. *)
Definition in_step (st : state) : Prop :=
  exists k,
    (pending st = 0%nat /\ isTyping st = false
     /\ map sender (messages st) = alternating k)
    \/ (pending st = 1%nat /\ isTyping st = true
        /\ map sender (messages st) = alternating k ++ [user]).

(** A settlement after which the handler returns: every one except a 2xx
    answer to [fetch], after which the handler awaits the body. *)
Definition final (e : event) : bool :=
  match e with
  | FetchSettled _ _ (Fetch.Rejected _) => true
  | FetchSettled _ _ (Fetch.Responded status _) => negb (Fetch.ok status)
  | JsonSettled _ _ _ => true
  | _ => false
  end.

(** Assistant messages are text; file and audio messages are the user's. *)
Definition well_kinded (m : Message) : Prop :=
  (sender m = ai -> type m = text)
  /\ (type m = file \/ type m = audio -> sender m = user).

(** The two settlements of a dispatch whose request is answered with
    [status] and whose body parses to [data]. *)
Definition answered (c1 c2 : clock) (n : nat) (status : Z) (statusText : string)
  (data : JS.value) : list event :=
  [ FetchSettled c1 n (Fetch.Responded status statusText);
    JsonSettled c2 n (Fetch.Parsed data) ].

(** The ways a dispatch fails. *)
Inductive failure : Type :=
| NetworkError (e : JS.Error)                       (* [fetch] rejects *)
| HttpFailure (status : Z) (statusText : string)    (* [!response.ok] *)
| BadJson (status : Z) (statusText : string) (e : JS.Error)
                                                    (* [response.json()] rejects *)
| NullBody (status : Z) (statusText : string).      (* the body is [null] *)

Definition proper (f : failure) : bool :=
  match f with
  | NetworkError _ => true
  | HttpFailure status _ => negb (Fetch.ok status)
  | BadJson status _ _ => Fetch.ok status
  | NullBody status _ => Fetch.ok status
  end.

(** The settlements of activation [n] that make up the failure; [c] is
    the clock when the [catch] block runs. *)
Definition failing (c0 c : clock) (n : nat) (f : failure) : list event :=
  match f with
  | NetworkError e => [FetchSettled c n (Fetch.Rejected e)]
  | HttpFailure status statusText =>
      [FetchSettled c n (Fetch.Responded status statusText)]
  | BadJson status statusText e =>
      [ FetchSettled c0 n (Fetch.Responded status statusText);
        JsonSettled c n (Fetch.JsonRejected e) ]
  | NullBody status statusText =>
      [ FetchSettled c0 n (Fetch.Responded status statusText);
        JsonSettled c n (Fetch.Parsed JS.JNull) ]
  end.

(** The error which the [catch] block receives. *)
Definition caught (f : failure) : JS.Error :=
  match f with
  | NetworkError e => e
  | HttpFailure status _ =>
      JS.mkError ("HTTP error! status: " ++ JS.Z_toString status)
  | BadJson _ _ e => e
  | NullBody _ _ => JS.null_read "response"
  end.

(** The requests sent are those of the activations, one each. *)
Definition one_request_each (st : state) : Prop :=
  requests st = map request_of (map fst (calls st)).

(** The [Date.now()] reading of an event that builds a message. *)
Definition readings (e : event) : list Z :=
  match e with
  | TextSent c _ | AudioRecorded c _ _ => [Date_now c]
  | FileSelected c f =>
      match FileUpload.handleFileSelect f with
      | FileUpload.OnFileUpload _ => [Date_now c]
      | FileUpload.Alert _ => []
      end
  | FetchSettled c _ (Fetch.Rejected _) => [Date_now c]
  | FetchSettled c _ (Fetch.Responded status _) =>
      if Fetch.ok status then [] else [Date_now c]
  | JsonSettled c _ _ => [Date_now c]
  end.

(** The sender and the [Date.now()] reading of the message which an
    event builds. *)
Definition stamps (e : event) : list (Sender * Z) :=
  match submitted e with
  | _ :: _ => map (pair user) (readings e)
  | [] => map (pair ai) (readings e)
  end.

(** The number which the id of a message stands for: the reading for a
    user message, the reading plus one for an assistant message. *)
Definition stamp_number (x : Sender * Z) : Z :=
  match fst x with
  | user => snd x
  | ai => snd x + 1
  end.

(** The clock readings of two consecutive messages are far enough apart:
    a user message comes at a later millisecond than the user message
    before it, and two milliseconds or more after the reply before it; a
    reply comes no earlier than the user message before it (the same
    millisecond will do), and at a later millisecond than the reply
    before it. *)
Definition in_time (a b : Sender * Z) : Prop :=
  match fst a, fst b with
  | user, user => snd a < snd b
  | user, ai => snd a <= snd b
  | ai, user => snd a + 2 <= snd b
  | ai, ai => snd a < snd b
  end.

Fixpoint timely (prev : Sender * Z) (l : list (Sender * Z)) : Prop :=
  match l with
  | [] => True
  | x :: rest => in_time prev x /\ timely x rest
  end.

(** The seed has the id 1, as an assistant message built at reading 0
    would. *)
Definition seed_stamp : Sender * Z := (ai, 0).

(** The handler activation which a submit action starts, if it gets
    through validation, with the arguments of the action. *)
Definition dispatched (e : event) : list call :=
  match e with
  | TextSent _ text_content => [InSendMessage text_content]
  | FileSelected _ f =>
      match FileUpload.handleFileSelect f with
      | FileUpload.OnFileUpload f' => [InFileUpload f']
      | FileUpload.Alert _ => []
      end
  | AudioRecorded _ audioBlob duration => [InAudioUpload audioBlob duration]
  | _ => []
  end.

End ChatPage.

(* ================================================================== *)
(** ** AudioRecorder.tsx *)

Module AudioRecorder.

(** The platform side: media streams handed out by [getUserMedia]
    (numbered in order), the log of [track.stop()] calls, the
    [MediaRecorder] objects and the running interval timers. *)
Inductive RecordingState : Type := inactive | recording.

Record MediaRecorder : Type :=
  { stream : nat;
    state : RecordingState;
    stop_queued : bool   (* [stop()] was called, [onstop] not yet run *) }.

Record device : Type :=
  { streams : nat;
    track_stops : list nat;
    recorders : list MediaRecorder;
    intervals : list nat;
    timers_made : nat }.

(** [useState] *)
Record hooks : Type :=
  { isRecording : bool;
    recordingTime : Z;
    hasPermission : option bool }.

(** [useRef] *)
Record refs : Type :=
  { mediaRecorderRef : option nat;
    audioChunksRef : list Blob.t;
    streamRef : option nat;
    startTimeRef : Z;
    timerRef : option nat }.

(** The life of the component.  The effect has the dependency list [[]],
    so it runs once, after the first render, and the cleanup it returns
    calls the [stopRecording] of that render: [Mounted b] keeps the value
    [b] of [isRecording] which that closure sees. *)
Inductive lifecycle : Type :=
| Fresh
| Mounted (cleanup_sees : bool)
| Gone.

(** The component with its surroundings.  [starting] counts the calls of
    [startRecording] that are suspended at [await getUserMedia(...)]. *)
Record world : Type :=
  { st : hooks;
    rf : refs;
    dev : device;
    life : lifecycle;
    starting : nat;
    uploads : list (Blob.t * JS.Seconds);      (* calls of onAudioUpload *)
    console : list (string * JS.Error) }.

Definition initial_hooks : hooks :=
  {| isRecording := false; recordingTime := 0; hasPermission := None |}.

Definition initial_refs : refs :=
  {| mediaRecorderRef := None;
     audioChunksRef := [];
     streamRef := None;
     startTimeRef := 0;
     timerRef := None |}.

Definition initial_device : device :=
  {| streams := 0; track_stops := []; recorders := [];
     intervals := []; timers_made := 0 |}.

Definition unmounted : world :=
  {| st := initial_hooks; rf := initial_refs; dev := initial_device;
     life := Fresh; starting := 0; uploads := []; console := [] |}.

(** [stream.getTracks().forEach(track => track.stop())] *)
Definition stop_tracks (s : nat) (d : device) : device :=
  {| streams := streams d;
     track_stops := track_stops d ++ [s];
     recorders := recorders d;
     intervals := intervals d;
     timers_made := timers_made d |}.

(** [navigator.mediaDevices.getUserMedia] resolving with a new stream. *)
Definition open_stream (d : device) : nat * device :=
  (streams d,
   {| streams := S (streams d);
      track_stops := track_stops d;
      recorders := recorders d;
      intervals := intervals d;
      timers_made := timers_made d |}).

(** [new MediaRecorder(stream, ...)] followed by [start(100)]. *)
Definition start_recorder (s : nat) (d : device) : nat * device :=
  (List.length (recorders d),
   {| streams := streams d;
      track_stops := track_stops d;
      recorders := recorders d
                   ++ [{| stream := s; state := recording; stop_queued := false |}];
      intervals := intervals d;
      timers_made := timers_made d |}).

Fixpoint update_recorder (r : nat) (m : MediaRecorder) (l : list MediaRecorder)
  : list MediaRecorder :=
  match l, r with
  | [], _ => []
  | _ :: rest, O => m :: rest
  | x :: rest, S r' => x :: update_recorder r' m rest
  end.

Definition set_recorders (l : list MediaRecorder) (d : device) : device :=
  {| streams := streams d;
     track_stops := track_stops d;
     recorders := l;
     intervals := intervals d;
     timers_made := timers_made d |}.

(** [recorder.stop()]: an [InvalidStateError] ([None]) when inactive,
    otherwise the recorder becomes inactive and a [stop] event is queued. *)
Definition recorder_stop (r : nat) (d : device) : option device :=
  match nth_error (recorders d) r with
  | Some m =>
      match state m with
      | inactive => None
      | recording =>
          Some (set_recorders
                  (update_recorder r
                     {| stream := stream m; state := inactive; stop_queued := true |}
                     (recorders d)) d)
      end
  | None => None
  end.

(** [setInterval] and [clearInterval] *)
Definition setInterval (d : device) : nat * device :=
  (timers_made d,
   {| streams := streams d;
      track_stops := track_stops d;
      recorders := recorders d;
      intervals := intervals d ++ [timers_made d];
      timers_made := S (timers_made d) |}).

Definition clearInterval (t : nat) (d : device) : device :=
  {| streams := streams d;
     track_stops := track_stops d;
     recorders := recorders d;
     intervals := filter (fun t' => negb (Nat.eqb t' t)) (intervals d);
     timers_made := timers_made d |}.

(** How a [getUserMedia] promise settles. *)
Inductive permission : Type :=
| Granted
| Denied (e : JS.Error).

(** Resumption of [checkMicrophonePermission]. *)
Definition checkMicrophonePermission (p : permission) (w : world) : world :=
  match p with
  | Granted =>
      let (s, d) := open_stream (dev w) in
      {| st := {| isRecording := isRecording (st w);
                  recordingTime := recordingTime (st w);
                  hasPermission := Some true |};
         rf := rf w;
         dev := stop_tracks s d;
         life := life w; starting := starting w; uploads := uploads w; console := console w |}
  | Denied _ =>
      {| st := {| isRecording := isRecording (st w);
                  recordingTime := recordingTime (st w);
                  hasPermission := Some false |};
         rf := rf w; dev := dev w;
         life := life w; starting := starting w; uploads := uploads w; console := console w |}
  end.

(** Resumption of [startRecording] after [await getUserMedia(...)]. *)
Definition startRecording (now : Z) (p : permission) (w : world) : world :=
  match p with
  | Granted =>
      let (s, d1) := open_stream (dev w) in
      let (r, d2) := start_recorder s d1 in
      let (t, d3) := setInterval d2 in
      {| st := {| isRecording := true;
                  recordingTime := 0;
                  hasPermission := hasPermission (st w) |};
         rf := {| mediaRecorderRef := Some r;
                  audioChunksRef := [];
                  streamRef := Some s;
                  startTimeRef := now;
                  timerRef := Some t |};
         dev := d3;
         life := life w; starting := starting w; uploads := uploads w; console := console w |}
  | Denied e =>
      {| st := {| isRecording := isRecording (st w);
                  recordingTime := recordingTime (st w);
                  hasPermission := Some false |};
         rf := rf w; dev := dev w;
         life := life w; starting := starting w; uploads := uploads w;
         console := console w ++ [("Error starting recording:", e)] |}
  end.

(** [stopRecording], as a closure that sees the value [seen] of
    [isRecording]. *)
Definition stopRecording (seen : bool) (w : world) : option world :=
  match mediaRecorderRef (rf w) with
  | Some r =>
      if seen then
        match recorder_stop r (dev w) with
        | Some d =>
            Some {| st := {| isRecording := false;
                             recordingTime := 0;
                             hasPermission := hasPermission (st w) |};
                    rf := {| mediaRecorderRef := mediaRecorderRef (rf w);
                             audioChunksRef := audioChunksRef (rf w);
                             streamRef := streamRef (rf w);
                             startTimeRef := startTimeRef (rf w);
                             timerRef := None |};
                    dev := match timerRef (rf w) with
                           | Some t => clearInterval t d
                           | None => d
                           end;
                    life := life w; starting := starting w; uploads := uploads w;
                    console := console w |}
        | None => None
        end
      else Some w
  | None => Some w
  end.

(** [mediaRecorder.ondataavailable] *)
Definition ondataavailable (chunk : Blob.t) (w : world) : world :=
  if Blob.size chunk >? 0 then
    {| st := st w;
       rf := {| mediaRecorderRef := mediaRecorderRef (rf w);
                audioChunksRef := audioChunksRef (rf w) ++ [chunk];
                streamRef := streamRef (rf w);
                startTimeRef := startTimeRef (rf w);
                timerRef := timerRef (rf w) |};
       dev := dev w;
       life := life w; starting := starting w; uploads := uploads w; console := console w |}
  else w.

(** [new Blob(chunks, { type: 'audio/webm' })] *)
Definition concat_chunks (chunks : list Blob.t) : Blob.t :=
  {| Blob.data := flat_map Blob.data chunks; Blob.type := "audio/webm" |}.

(** [mediaRecorder.onstop], run for recorder [r] at clock reading [now]. *)
Definition onstop (now : Z) (r : nat) (m : MediaRecorder) (w : world) : world :=
  let audioBlob := concat_chunks (audioChunksRef (rf w)) in
  let duration := {| JS.millis := now - startTimeRef (rf w) |} in
  let d := set_recorders
             (update_recorder r
                {| stream := stream m; state := state m; stop_queued := false |}
                (recorders (dev w))) (dev w) in
  {| st := st w;
     rf := {| mediaRecorderRef := mediaRecorderRef (rf w);
              audioChunksRef := audioChunksRef (rf w);
              streamRef := None;
              startTimeRef := startTimeRef (rf w);
              timerRef := timerRef (rf w) |};
     dev := match streamRef (rf w) with
            | Some s => stop_tracks s d
            | None => d
            end;
     life := life w;
     starting := starting w; uploads := uploads w ++ [(audioBlob, duration)];
     console := console w |}.

(** The timer callback [setRecordingTime(prev => prev + 1)]. *)
Definition tick (w : world) : world :=
  {| st := {| isRecording := isRecording (st w);
              recordingTime := recordingTime (st w) + 1;
              hasPermission := hasPermission (st w) |};
     rf := rf w; dev := dev w;
     life := life w; starting := starting w; uploads := uploads w; console := console w |}.

(** The first render and the effect: the cleanup is created now and keeps
    the [isRecording] of this render. *)
Definition mount (w : world) : world :=
  {| st := st w; rf := rf w; dev := dev w;
     life := Mounted (isRecording (st w));
     starting := starting w; uploads := uploads w; console := console w |}.

(** The cleanup of the effect:
    [if (timerRef.current) clearInterval(timerRef.current); stopRecording();] *)
Definition run_cleanup (seen : bool) (w : world) : option world :=
  let w1 :=
    {| st := st w; rf := rf w;
       dev := match timerRef (rf w) with
              | Some t => clearInterval t (dev w)
              | None => dev w
              end;
       life := Gone; starting := starting w; uploads := uploads w; console := console w |} in
  stopRecording seen w1.

(** [startRecording] up to its [await]: one more call is suspended. *)
Definition suspend (w : world) : world :=
  {| st := st w; rf := rf w; dev := dev w; life := life w;
     starting := S (starting w);
     uploads := uploads w; console := console w |}.

(** One suspended call of [startRecording] is taken up again, [k] others
    stay suspended. *)
Definition resume (k : nat) (w : world) : world :=
  {| st := st w; rf := rf w; dev := dev w; life := life w;
     starting := k;
     uploads := uploads w; console := console w |}.

(** What can happen to the recorder.  A click on the button while not
    recording calls [startRecording], which is suspended at
    [await getUserMedia(...)] ([RecordPressed]) and taken up again when that
    promise settles ([MediaSettled]), whatever has happened in between: an
    unmount, another click.  [RecordClicked] is the click whose promise
    settles before anything else happens. *)
Inductive event : Type :=
| Mount
| PermissionProbed (p : permission)           (* the probe made by the effect *)
| RecordClicked (now : Z) (p : permission)    (* click while not recording,
                                                 and how getUserMedia settles *)
| StopClicked                                 (* click while recording *)
| DataAvailable (r : nat) (chunk : Blob.t)
| StopFired (now : Z) (r : nat)               (* the queued [stop] event *)
| Tick
| Unmount
| RecordPressed                               (* click while not recording *)
| MediaSettled (now : Z) (p : permission).    (* a suspended startRecording
                                                 goes on *)

Definition step (w : world) (e : event) : option world :=
  match e, life w with
  | Mount, Fresh => Some (mount w)
  | PermissionProbed p, _ => Some (checkMicrophonePermission p w)
  | RecordClicked now p, Mounted _ =>
      if isRecording (st w) then None else Some (startRecording now p w)
  | StopClicked, Mounted _ =>
      if isRecording (st w) then stopRecording (isRecording (st w)) w else None
  | DataAvailable r chunk, _ =>
      match nth_error (recorders (dev w)) r with
      | Some _ => Some (ondataavailable chunk w)
      | None => None
      end
  | StopFired now r, _ =>
      match nth_error (recorders (dev w)) r with
      | Some m => if stop_queued m then Some (onstop now r m w) else None
      | None => None
      end
  | Tick, _ =>
      match intervals (dev w) with
      | [] => None
      | _ :: _ => Some (tick w)
      end
  | Unmount, Mounted seen => run_cleanup seen w
  | RecordPressed, Mounted _ =>
      if isRecording (st w) then None else Some (suspend w)
  | MediaSettled now p, _ =>
      match starting w with
      | O => None
      | S k => Some (startRecording now p (resume k w))
      end
  | _, _ => None
  end.

Fixpoint run (w : world) (tr : list event) : option world :=
  match tr with
  | [] => Some w
  | e :: rest =>
      match step w e with
      | Some w' => run w' rest
      | None => None
      end
  end.

(** How often the tracks of stream [s] were stopped. *)
Definition releases (s : nat) (w : world) : nat :=
  count_occ Nat.eq_dec (track_stops (dev w)) s.

(** The closure of the cleanup never sees a recording: before the mount
    [isRecording] is [false], and that is the value the cleanup keeps. *)
Definition stale (w : world) : Prop :=
  (life w = Fresh /\ isRecording (st w) = false /\ starting w = 0%nat)
  \/ life w = Mounted false
  \/ life w = Gone.

(** After the teardown: the component is gone, no recorder has a [stop]
    event queued, and stream [s] exists and has not been released. *)
Definition abandoned (s : nat) (w : world) : Prop :=
  life w = Gone
  /\ Forall (fun m => stop_queued m = false) (recorders (dev w))
  /\ (s < streams (dev w))%nat
  /\ releases s w = 0%nat.

(** One recording, torn down while it runs: mount, permission probe,
    record, one chunk of data, unmount. *)
Definition teardown_while_recording : list event :=
  [ Mount;
    PermissionProbed Granted;
    RecordClicked 1000 Granted;
    DataAvailable 0 {| Blob.data := [x1a; x45]; Blob.type := "audio/webm" |};
    Unmount ].

(** One recording, stopped with the button. *)
Definition stopped_by_button : list event :=
  [ Mount;
    PermissionProbed Granted;
    RecordClicked 1000 Granted;
    DataAvailable 0 {| Blob.data := [x1a; x45]; Blob.type := "audio/webm" |};
    StopClicked;
    StopFired 3300 0 ].

(** [formatTime], applied to the whole number [recordingTime]:
    [Math.floor(seconds / 60)] and the remainder [seconds % 60], which has
    the sign of [seconds]. *)
Definition formatTime (seconds : Z) : string :=
  let mins := seconds / 60 in
  let secs := Z.rem seconds 60 in
  JS.Z_toString mins ++ ":" ++ JS.padStart 2 "0" (JS.Z_toString secs).

(** What happens while recorder [r] records: chunks of data arrive
    ([Some chunk]) and the timer ticks ([None]). *)
Definition during (r : nat) (xs : list (option Blob.t)) : list event :=
  map (fun x => match x with
                | Some chunk => DataAvailable r chunk
                | None => Tick
                end) xs.

(** The chunks that [ondataavailable] keeps. *)
Definition kept (chunks : list Blob.t) : list Blob.t :=
  filter (fun chunk => Blob.size chunk >? 0) chunks.

Fixpoint chunks_of (xs : list (option Blob.t)) : list Blob.t :=
  match xs with
  | [] => []
  | Some chunk :: rest => chunk :: chunks_of rest
  | None :: rest => chunks_of rest
  end.

Fixpoint ticks_of (xs : list (option Blob.t)) : Z :=
  match xs with
  | [] => 0
  | Some _ :: rest => ticks_of rest
  | None :: rest => 1 + ticks_of rest
  end.

(** One complete recording with recorder [r]: record at [t0]; data and
    ticks; stop with the button; the last data; the [stop] event at [t1]. *)
Definition whole_recording (t0 t1 : Z) (r : nat) (xs : list (option Blob.t))
  (last_chunks : list Blob.t) : list event :=
  RecordClicked t0 Granted
    :: during r xs
    ++ StopClicked
    :: map (DataAvailable r) last_chunks
    ++ [StopFired t1 r].

(** The timer runs exactly while a mounted component records. *)
Definition timer_kept (w : world) : Prop :=
  match life w with
  | Gone => intervals (dev w) = []
  | _ =>
      if isRecording (st w) then
        exists t r,
          timerRef (rf w) = Some t /\ intervals (dev w) = [t]
          /\ mediaRecorderRef (rf w) = Some r
      else timerRef (rf w) = None /\ intervals (dev w) = []
  end.

(** Streams are numbered below [streams]; none was stopped twice; the
    one in [streamRef] was not stopped. *)
Definition streams_kept (w : world) : Prop :=
  Forall (fun s => (s < streams (dev w))%nat) (track_stops (dev w))
  /\ NoDup (track_stops (dev w))
  /\ forall s, streamRef (rf w) = Some s ->
               (s < streams (dev w))%nat /\ ~ In s (track_stops (dev w)).

(** [w'] is [w] after [ticks] ticks and with the chunks [more] added:
    everything else is as in [w]. *)
Definition carried (more : list Blob.t) (ticks : Z) (w w' : world) : Prop :=
  life w' = life w
  /\ dev w' = dev w
  /\ uploads w' = uploads w
  /\ console w' = console w
  /\ isRecording (st w') = isRecording (st w)
  /\ hasPermission (st w') = hasPermission (st w)
  /\ recordingTime (st w') = recordingTime (st w) + ticks
  /\ mediaRecorderRef (rf w') = mediaRecorderRef (rf w)
  /\ streamRef (rf w') = streamRef (rf w)
  /\ startTimeRef (rf w') = startTimeRef (rf w)
  /\ timerRef (rf w') = timerRef (rf w)
  /\ audioChunksRef (rf w') = audioChunksRef (rf w) ++ more.

(** A mounted recorder whose permission probe was granted. *)
Definition ready : list event := [Mount; PermissionProbed Granted].

Definition chunk_a : Blob.t :=
  {| Blob.data := [x1a; x45]; Blob.type := "audio/webm" |}.

Definition chunk_b : Blob.t :=
  {| Blob.data := [xdf]; Blob.type := "audio/webm" |}.

Definition empty_chunk : Blob.t :=
  {| Blob.data := []; Blob.type := "audio/webm" |}.

(** A session in which every promise of [getUserMedia] made by a click on
    record settles before anything else happens. *)
Definition prompt_event (e : event) : bool :=
  match e with
  | RecordPressed | MediaSettled _ _ => false
  | _ => true
  end.

Definition prompt (tr : list event) : bool := forallb prompt_event tr.

(** Timers are numbered below [timers_made]. *)
Definition timers_numbered (w : world) : Prop :=
  Forall (fun t => (t < timers_made (dev w))%nat) (intervals (dev w)).

(** The component is torn down while a click on record waits for
    [getUserMedia], which is then granted. *)
Definition granted_after_teardown : list event :=
  [Mount; RecordPressed; Unmount; MediaSettled 1000 Granted].

(** After the teardown timer [t] is active and recorder [r] records, with
    no [stop] event queued. *)
Definition left_running (t r s : nat) (w : world) : Prop :=
  life w = Gone
  /\ In t (intervals (dev w))
  /\ nth_error (recorders (dev w)) r
     = Some {| stream := s; state := recording; stop_queued := false |}.

End AudioRecorder.

(* ================================================================== *)
(** ** log-analysis.service.ts and log-analysis.controller.ts *)

Module LogAnalysisService.

(** Nest's [HttpException(response, status)]. *)
Record HttpException : Type := { response : string; status : Z }.

(** Whatever a [throw] or a rejected [await] raises inside the [try]. *)
Inductive thrown : Type :=
| Http (e : HttpException)
| Other (e : JS.Error).

Inductive result (A : Type) : Type :=
| Return (a : A)
| Throw (e : thrown).
Arguments Return {A} a.
Arguments Throw {A} e.

Definition bind {A B : Type} (m : result A) (f : A -> result B) : result B :=
  match m with
  | Return a => f a
  | Throw e => Throw e
  end.

Notation "x <- m ;; k" := (bind m (fun x => k))
  (at level 61, m at next level, right associativity).

(** [try { body } catch (error) { handler }] *)
Definition try_catch {A : Type} (body : result A) (handler : thrown -> result A)
  : result A :=
  match body with
  | Return a => Return a
  | Throw e => handler e
  end.

Definition pythonAgentUrl : string := "http://localhost:8001/analyze".

(** The argument of [fetch]: the body is [JSON.stringify({ logs })]. *)
Definition request_of (logs : list string) : Fetch.request :=
  {| Fetch.url := pythonAgentUrl;
     Fetch.method := "POST";
     Fetch.headers := [("Content-Type", "application/json")];
     Fetch.payload :=
       Fetch.Json (JS.JObj [("logs", JS.JArr (map JS.JStr logs))]) |}.

(** The downstream service, as seen by one call: how [fetch] settles and,
    if it is asked, how [response.json()] settles. *)
Record downstream : Type :=
  { fetched : Fetch.fetched;
    parsed : Fetch.parsed }.

Definition await_fetch (d : downstream) : result (Z * string) :=
  match fetched d with
  | Fetch.Rejected e => Throw (Other e)
  | Fetch.Responded s t => Return (s, t)
  end.

Definition await_json (d : downstream) : result JS.value :=
  match parsed d with
  | Fetch.JsonRejected e => Throw (Other e)
  | Fetch.Parsed v => Return v
  end.

(** [analyzeLogs]: the request it sends and how its promise settles. *)
Definition analyzeLogs (logs : list string) (d : downstream)
  : Fetch.request * result JS.value :=
  (request_of logs,
   try_catch
     (resp <- await_fetch d ;;
      _ <- (if negb (Fetch.ok (fst resp)) then
              Throw (Http {| response := "Python agent error: " ++ snd resp;
                             status := fst resp |})
            else Return tt) ;;
      data <- await_json d ;;
      Return data)
     (fun _ =>
        Throw (Http {| response := "Failed to reach Python agent";
                       status := 500 |}))).

(** [LogAnalysisController.uploadLogs] *)
Definition uploadLogs (body_logs : list string) (d : downstream)
  : Fetch.request * result JS.value :=
  analyzeLogs body_logs d.

End LogAnalysisService.

(* ================================================================== *)
(** ** ChatMessage.tsx *)

Module ChatMessage.

(** [formatDuration], applied to a duration of [ms / 1000] seconds as the
    recorder computes it.  [Math.floor(seconds / 60)] is the whole number
    of minutes and [Math.floor(seconds % 60)] the whole part of the
    remainder, which has the sign of [seconds]; for durations below 10^11
    seconds the rounding of the double does not reach the next whole
    number. *)
Definition formatDuration (seconds : JS.Seconds) : string :=
  let mins := JS.millis seconds / 60000 in
  let secs := Z.rem (JS.millis seconds) 60000 / 1000 in
  JS.Z_toString mins ++ ":" ++ JS.padStart 2 "0" (JS.Z_toString secs).

End ChatMessage.

(* ================================================================== *)
(** ** The chat page with its file control *)

Module FileDrop.
Import ChatPage.

(** [<FileUpload onFileUpload={handleFileUpload} />]: what
    [handleFileSelect] did, applied to the page. *)
Definition apply_outcome (c : clock) (o : option FileUpload.outcome)
  (st : state) : state :=
  match o with
  | None => st
  | Some (FileUpload.Alert notice) => alert notice st
  | Some (FileUpload.OnFileUpload f) => handleFileUpload c f st
  end.

(** A drop of [files] on the control. *)
Definition dropFiles (c : clock) (files : list File.t) (st : state) : state :=
  apply_outcome c (snd (FileUpload.handleDrop files false)) st.

(** A change of the file input to [files]. *)
Definition changeFiles (c : clock) (files : option (list File.t))
  (st : state) : state :=
  apply_outcome c (snd (FileUpload.handleFileChange files)) st.

(** The files among the handler activations are valid ones. *)
Definition valid_call (k : call) : Prop :=
  match k with
  | InFileUpload f => FileUpload.valid f
  | _ => True
  end.

(** A file message shows a size within the limit. *)
Definition valid_message (m : Message) : Prop :=
  type m = file ->
  exists n, fileSize m = Some n /\ n <= 10 * 1024 * 1024.

End FileDrop.

(* ================================================================== *)
(** ** Sample sessions *)

Module Session.
Import ChatPage.

Definition at_ms (t : Z) : clock := {| Date_now := t; new_Date := t |}.

Definition notes : File.t :=
  {| File.name := "notes.txt"; File.size := 2048; File.type := "text/plain" |}.

Definition voice : Blob.t :=
  {| Blob.data := [x1a; x45; xdf; xa3]; Blob.type := "audio/webm" |}.

Definition seven_seconds : JS.Seconds := {| JS.millis := 7000 |}.

Definition offline : JS.Error :=
  {| JS.name := "TypeError"; JS.message := "Failed to fetch" |}.

Definition answer (s : string) : JS.value := JS.JObj [("response", JS.JStr s)].

(** A text is answered, then a file upload fails with status 500. *)
Definition one_by_one : list event :=
  [ TextSent (at_ms 1000) "hello";
    FetchSettled (at_ms 1200) 0 (Fetch.Responded 200 "OK");
    JsonSettled (at_ms 1210) 0 (Fetch.Parsed (answer "hi"));
    FileSelected (at_ms 5000) notes;
    FetchSettled (at_ms 5300) 1 (Fetch.Responded 500 "Internal Server Error") ].

(** A file is dropped and, before its request settles, a voice message is
    recorded; then both requests fail. *)
Definition overlapping : list event :=
  [ FileSelected (at_ms 1000) notes;
    AudioRecorded (at_ms 2000) voice seven_seconds;
    FetchSettled (at_ms 3000) 0 (Fetch.Rejected offline);
    FetchSettled (at_ms 4000) 1 (Fetch.Rejected offline) ].

(** A file upload answered with an empty [response]. *)
Definition empty_answer : list event :=
  FileSelected (at_ms 1000) notes
    :: answered (at_ms 1200) (at_ms 1210) 0 200 "OK" (answer EmptyString).

(** A voice message of 2.345 seconds, answered without a [response]. *)
Definition short_voice : list event :=
  AudioRecorded (at_ms 1000) voice {| JS.millis := 2345 |}
    :: answered (at_ms 1200) (at_ms 1210) 0 200 "OK" (JS.JObj []).

(** A voice message of 7 seconds, answered without a [response]. *)
Definition seven_second_voice : list event :=
  AudioRecorded (at_ms 1000) voice seven_seconds
    :: answered (at_ms 1200) (at_ms 1210) 0 200 "OK" (JS.JObj []).

(** A text fails at 1499 ms; the next text is sent one millisecond
    later. *)
Definition quick_retry : list event :=
  [ TextSent (at_ms 1000) "hello";
    FetchSettled (at_ms 1499) 0 (Fetch.Rejected offline);
    TextSent (at_ms 1500) "hello" ].

(** A text whose request fails within the millisecond in which it was
    sent. *)
Definition instant_failure : list event :=
  [ TextSent (at_ms 1000) "hello";
    FetchSettled (at_ms 1000) 0 (Fetch.Rejected offline) ].

(** The number 42 as a double. *)
Definition forty_two : JS.value := JS.JNum (S754_finite false 21 1).

End Session.

(* ================================================================== *)
(** ** Properties of the chat page *)

Module ChatPageFacts.
Import ChatPage Session.

Local Open Scope nat_scope.

Lemma suspended_app l1 l2 :
  suspended (l1 ++ l2) = suspended l1 + suspended l2.
Proof.
  unfold suspended. now rewrite filter_app, length_app.
Qed.

Lemma suspended_return l : forall n k p,
  nth_error l n = Some (k, p) -> in_flight p = true ->
  suspended l = S (suspended (set_point n Returned l)).
Proof.
  induction l as [|[k0 p0] l IH]; intros [|n] k p Hn Hp; simpl in *;
    try discriminate.
  - injection Hn as -> ->. unfold suspended. simpl. now rewrite Hp.
  - specialize (IH n k p Hn Hp). unfold suspended in *. simpl.
    destruct (in_flight p0); simpl; lia.
Qed.

Lemma suspended_at_json l : forall n k,
  nth_error l n = Some (k, AtFetch) ->
  suspended (set_point n AtJson l) = suspended l.
Proof.
  induction l as [|[k0 p0] l IH]; intros [|n] k Hn; simpl in *;
    try discriminate.
  - injection Hn as -> ->. reflexivity.
  - specialize (IH n k Hn). unfold suspended in *. simpl.
    destruct (in_flight p0); simpl; lia.
Qed.

Lemma begin_dispatches st e c k :
  submitted e = [userMessage c k] -> effect st e (begin c k st).
Proof.
  intros H. apply (Dispatches _ _ _ (userMessage c k)); trivial.
  - now destruct k.
  - unfold pending; simpl. rewrite suspended_app. unfold suspended; simpl. lia.
Qed.

Lemma finish_settles st e n k p m logged :
  submitted e = [] -> nth_error (calls st) n = Some (k, p) ->
  in_flight p = true -> sender m = ai -> type m = text ->
  effect st e (finish n m logged st).
Proof.
  intros He Hn Hp Hs Ht. apply (Settles _ _ _ m); trivial.
  unfold pending; simpl. now apply (suspended_return _ _ k p).
Qed.

Lemma step_effect st e st' : step st e = Some st' -> effect st e st'.
Proof.
  destruct e as [c t | c f | c b d | c n r | c n r]; simpl; intros H.
  - injection H as <-. now apply begin_dispatches.
  - injection H as <-. unfold selectFile.
    destruct (FileUpload.handleFileSelect f) as [notice | f'] eqn:Hf.
    + apply Keeps; simpl; trivial. now rewrite Hf.
    + apply begin_dispatches. simpl. now rewrite Hf.
  - injection H as <-. now apply begin_dispatches.
  - destruct (nth_error (calls st) n) as [[k [| |]]|] eqn:Hn; try discriminate.
    injection H as <-. unfold after_fetch, catch.
    destruct r as [err | status statusText].
    + now apply (finish_settles _ _ _ k AtFetch).
    + destruct (negb (Fetch.ok status)).
      * now apply (finish_settles _ _ _ k AtFetch).
      * apply Keeps; trivial.
        unfold pending; simpl. now apply (suspended_at_json _ _ k).
  - destruct (nth_error (calls st) n) as [[k [| |]]|] eqn:Hn; try discriminate.
    injection H as <-. unfold after_json, catch.
    destruct r as [err | data].
    + now apply (finish_settles _ _ _ k AtJson).
    + destruct (JS.or_else _ _); now apply (finish_settles _ _ _ k AtJson).
Qed.

Lemma run_app st tr1 tr2 :
  run st (tr1 ++ tr2) =
  match run st tr1 with
  | Some mid => run mid tr2
  | None => None
  end.
Proof.
  revert st. induction tr1 as [|e tr1 IH]; intros st; simpl; [reflexivity|].
  destruct (step st e); [apply IH | reflexivity].
Qed.

(** A run only appends; what it appends holds the user messages of its
    submit actions, in their order, and one assistant message for every
    activation that it closes. *)
Lemma run_appends tr : forall st st',
  run st tr = Some st' ->
  exists l,
    messages st' = messages st ++ l
    /\ filter is_user l = flat_map submitted tr
    /\ List.length l + pending st' = pending st + 2 * submissions tr.
Proof.
  unfold submissions.
  induction tr as [|e tr IH]; intros st st' H; simpl in H.
  - injection H as <-. exists []. simpl. rewrite app_nil_r. repeat split; lia.
  - destruct (step st e) as [mid|] eqn:He; [|discriminate].
    destruct (IH _ _ H) as (l2 & M2 & U2 & C2). simpl.
    rewrite length_app.
    destruct (step_effect _ _ _ He) as [m Hs Hu Hm Hp _ | Hs Hm Hp _ | m Hs Ha _ Hm Hp _];
      rewrite Hs; simpl.
    + exists (m :: l2). rewrite M2, Hm, <- app_assoc. split; [reflexivity|].
      simpl. unfold is_user at 1. rewrite Hu, U2. split; [reflexivity|].
      simpl. lia.
    + exists l2. rewrite M2, Hm. repeat split; trivial. lia.
    + exists (m :: l2). rewrite M2, Hm, <- app_assoc. split; [reflexivity|].
      simpl. unfold is_user at 1. rewrite Ha, U2. split; [reflexivity|].
      simpl. lia.
Qed.

Lemma alternating_length n : List.length (alternating n) = 1 + 2 * n.
Proof.
  induction n as [|n IH]; simpl; [reflexivity|].
  rewrite length_app, IH. simpl. lia.
Qed.

Lemma in_step_run tr : forall st st',
  in_step st -> sequential st tr = true -> run st tr = Some st' ->
  in_step st'.
Proof.
  induction tr as [|e tr IH]; intros st st' Hi Hq Hr; simpl in *.
  - now injection Hr as <-.
  - destruct (step st e) as [mid|] eqn:He; [|discriminate].
    apply andb_prop in Hq as [Hq1 Hq2].
    apply (IH mid st'); trivial. clear IH Hr Hq2.
    destruct Hi as [k Hk].
    destruct (step_effect _ _ _ He)
      as [m Hs Hu Hm Hp Hf | Hs Hm Hp Hf | m Hs Ha _ Hm Hp Hf].
    + rewrite Hs in Hq1. apply Nat.eqb_eq in Hq1.
      destruct Hk as [(_ & _ & Hk) | (Hk & _)]; [|congruence].
      exists k. right. rewrite Hp, Hq1, Hm, map_app, Hk. simpl.
      now rewrite Hu.
    + exists k. now rewrite Hp, Hm, Hf.
    + destruct Hk as [(Hk & _) | (Hk1 & _ & Hk)]; [congruence|].
      exists (S k). left. split; [congruence|]. split; [assumption|].
      rewrite Hm, map_app, Hk, <- app_assoc. simpl. now rewrite Ha.
Qed.

Lemma idle_run tr : forall st st',
  (pending st = 0 -> isTyping st = false) ->
  run st tr = Some st' ->
  pending st' = 0 -> isTyping st' = false.
Proof.
  induction tr as [|e tr IH]; intros st st' Hi Hr; simpl in *.
  - now injection Hr as <-.
  - destruct (step st e) as [mid|] eqn:He; [|discriminate].
    apply (IH mid st'); trivial.
    destruct (step_effect _ _ _ He)
      as [m Hs Hu Hm Hp Hf | Hs Hm Hp Hf | m Hs Ha _ Hm Hp Hf];
      intros H0; try congruence.
    rewrite Hf. apply Hi. congruence.
Qed.

Lemma well_kinded_run tr : forall st st',
  Forall well_kinded (messages st) ->
  run st tr = Some st' ->
  Forall well_kinded (messages st').
Proof.
  induction tr as [|e tr IH]; intros st st' Hi Hr; simpl in *.
  - now injection Hr as <-.
  - destruct (step st e) as [mid|] eqn:He; [|discriminate].
    apply (IH mid st'); trivial.
    destruct (step_effect _ _ _ He)
      as [m Hs Hu Hm Hp Hf | Hs Hm Hp Hf | m Hs Ha Ht Hm Hp Hf];
      rewrite Hm; trivial; apply Forall_app; split; trivial;
      constructor; trivial; split; intros H; try congruence.
    destruct H; congruence.
Qed.

(** C1 (as amended).  Once every backend call of a session has settled,
    the store holds the seed and two messages per submit action; the user
    messages are those of the submit actions, in submission order; when no
    action was submitted while an earlier dispatch was pending, senders
    alternate user, assistant after the seed; and the store of every
    earlier moment of the session is a prefix of the final one. *)
Theorem C1_store_after_settlement (d : Z) (tr : list event) (st : state) :
  run (init d) tr = Some st ->
  (forall pre post mid,
      tr = pre ++ post -> run (init d) pre = Some mid ->
      exists l, messages st = messages mid ++ l)
  /\ filter is_user (messages st) = flat_map submitted tr
  /\ (pending st = 0 ->
      List.length (messages st) = 1 + 2 * submissions tr)
  /\ (pending st = 0 -> sequential (init d) tr = true ->
      map sender (messages st) = alternating (submissions tr)).
Proof.
  intros Hr.
  destruct (run_appends _ _ _ Hr) as (l & Hm & Hu & Hc).
  assert (Hlen : pending st = 0 ->
                 List.length (messages st) = 1 + 2 * submissions tr).
  { intros H0. rewrite Hm, length_app. simpl.
    change (pending (init d)) with 0 in Hc. lia. }
  split; [|split; [|split]]; trivial.
  - intros pre post mid -> Hpre. rewrite run_app, Hpre in Hr.
    destruct (run_appends _ _ _ Hr) as (l' & Hm' & _). now exists l'.
  - now rewrite Hm, <- Hu.
  - intros H0 Hq.
    assert (Hi : in_step (init d)) by (exists 0; left; repeat split).
    destruct (in_step_run _ _ _ Hi Hq Hr) as [k [(_ & _ & Hk) | (Hk & _)]];
      [|congruence].
    specialize (Hlen H0). rewrite <- (length_map sender), Hk in Hlen.
    rewrite alternating_length in Hlen.
    replace (submissions tr) with k by lia. exact Hk.
Qed.

Lemma C1_store_after_settlement_witness :
  exists st,
    run (init 0) one_by_one = Some st
    /\ List.length (messages st) = 5
    /\ map sender (messages st) = [ai; user; ai; user; ai].
Proof.
  eexists. split; [vm_compute; reflexivity|].
  destruct (C1_store_after_settlement 0 one_by_one _ eq_refl)
    as (_ & _ & Hlen & Halt).
  split; [apply Hlen | apply Halt]; reflexivity.
Defined.

(** C1 as stated fails: two overlapping dispatches leave two user messages
    side by side, followed by the two assistant messages. *)
Lemma C1_overlap_breaks_alternation :
  exists st,
    run (init 0) overlapping = Some st
    /\ pending st = 0
    /\ submissions overlapping = 2
    /\ map sender (messages st) = [ai; user; user; ai; ai]
    /\ map sender (messages st) <> alternating (submissions overlapping).
Proof.
  eexists. split; [vm_compute; reflexivity|].
  repeat split; try reflexivity. vm_compute. discriminate.
Qed.

(** C2 (as amended).  Every submit action that gets through validation
    appends its user message and raises [isTyping] in the same step; every
    settlement after which the handler returns (rejected [fetch], non-2xx
    status, rejected or parsed body, for a text, file or audio dispatch
    alike) lowers it; whenever no dispatch is pending the flag is down;
    and in a session without overlapping dispatches it is up whenever one
    is pending. *)
Theorem C2_responding_flag (d : Z) (tr : list event) (st : state) :
  run (init d) tr = Some st ->
  (pending st = 0 -> isTyping st = false)
  /\ (sequential (init d) tr = true -> pending st <> 0 -> isTyping st = true)
  /\ forall e st',
       step st e = Some st' ->
       (submitted e <> [] ->
        messages st' = messages st ++ submitted e /\ isTyping st' = true)
       /\ (final e = true -> isTyping st' = false).
Proof.
  intros Hr. split; [|split].
  - apply (idle_run tr (init d)); trivial.
  - intros Hq Hp.
    assert (Hi : in_step (init d)) by (exists 0; left; repeat split).
    destruct (in_step_run _ _ _ Hi Hq Hr) as [k [(Hk & _) | (_ & Hk & _)]];
      congruence.
  - intros e st' He. split.
    + intros Hs.
      destruct (step_effect _ _ _ He)
        as [m Hs' Hu Hm Hp Hf | Hs' Hm Hp Hf | m Hs' Ha _ Hm Hp Hf];
        try congruence.
      now rewrite Hs'.
    + intros Hfin.
      destruct e as [c t | c f | c b a | c n r | c n r]; simpl in *;
        try discriminate;
        destruct (nth_error (calls st) n) as [[k [| |]]|]; try discriminate;
        injection He as <-.
      * destruct r as [err | status statusText]; simpl; trivial.
        now rewrite Hfin.
      * destruct r as [err | data]; simpl; trivial.
        now destruct (JS.or_else _ _).
Qed.

Lemma C2_responding_flag_witness :
  exists st st',
    run (init 0) (firstn 3 one_by_one) = Some st
    /\ step st (FileSelected (at_ms 5000) notes) = Some st'
    /\ isTyping st = false
    /\ isTyping st' = true.
Proof.
  eexists; eexists. split; [vm_compute; reflexivity|].
  split; [vm_compute; reflexivity|].
  destruct (C2_responding_flag 0 (firstn 3 one_by_one) _ eq_refl)
    as (Hidle & _ & Hstep).
  split; [apply Hidle; reflexivity|].
  apply (Hstep (FileSelected (at_ms 5000) notes) _ eq_refl).
  vm_compute. discriminate.
Defined.

(** C2 as stated fails: with overlapping dispatches the settlement of the
    first lowers the flag while the second has begun and not settled. *)
Remark flag_down_while_pending :
  exists st,
    run (init 0) (firstn 3 overlapping) = Some st
    /\ nth_error (calls st) 1
       = Some (InAudioUpload voice seven_seconds, AtFetch)
    /\ pending st = 1 /\ isTyping st = false.
Proof.
  eexists. split; [vm_compute; reflexivity|]. repeat split.
Qed.

(** C10.  In every reachable store, each assistant message has type
    [text], and each message of type [file] or [audio] is from the user. *)
Theorem C10_assistant_messages_are_text (d : Z) (tr : list event) (st : state) :
  run (init d) tr = Some st ->
  Forall (fun m => (sender m = ai -> type m = text)
                   /\ (type m = file \/ type m = audio -> sender m = user))
         (messages st).
Proof.
  intros Hr. apply (well_kinded_run tr (init d)); trivial.
  constructor; [|constructor].
  split; [reflexivity|]. simpl. intros [H|H]; discriminate.
Qed.

Lemma C10_assistant_messages_are_text_witness :
  exists st,
    run (init 0) overlapping = Some st
    /\ Forall (fun m => (sender m = ai -> type m = text)
                        /\ (type m = file \/ type m = audio -> sender m = user))
              (messages st).
Proof.
  eexists. split; [vm_compute; reflexivity|].
  apply (C10_assistant_messages_are_text 0 overlapping _ eq_refl).
Defined.

End ChatPageFacts.

(* ================================================================== *)
(** ** Properties of file validation *)

Module FileUploadFacts.
Import ChatPage Session.

Lemma includes_In l x : FileUpload.includes l x = true <-> In x l.
Proof.
  unfold FileUpload.includes. rewrite existsb_exists. split.
  - intros (y & Hy & E). apply String.eqb_eq in E. now subst.
  - intros H. exists x. split; trivial. apply String.eqb_refl.
Qed.

Lemma rejected_alerts f :
  File.size f > 10 * 1024 * 1024 \/ ~ In (File.type f) FileUpload.allowedTypes ->
  exists notice, FileUpload.handleFileSelect f = FileUpload.Alert notice.
Proof.
  unfold FileUpload.handleFileSelect. intros H.
  destruct (File.size f >? 10 * 1024 * 1024) eqn:Hs; [eauto|].
  destruct (FileUpload.includes FileUpload.allowedTypes (File.type f)) eqn:Ht;
    simpl; [|eauto].
  apply includes_In in Ht. destruct H as [H|H]; [|contradiction].
  rewrite Z.gtb_ltb in Hs. apply Z.ltb_ge in Hs. lia.
Qed.

(** C3.  A file larger than 10 MiB, or whose type is not in the allow
    list, leaves the store, the requests sent, the pending dispatches and
    the flag as they were and raises one [alert]; a file of exactly
    10 MiB with an allowed type is handed to [handleFileUpload]. *)
Theorem C3_validation_short_circuits (st : state) (c : clock) (f : File.t) :
  (File.size f > 10 * 1024 * 1024
   \/ ~ In (File.type f) FileUpload.allowedTypes ->
   exists notice st',
     step st (FileSelected c f) = Some st'
     /\ messages st' = messages st
     /\ requests st' = requests st
     /\ calls st' = calls st
     /\ isTyping st' = isTyping st
     /\ alerts st' = alerts st ++ [notice])
  /\ (File.size f = 10 * 1024 * 1024 ->
      In (File.type f) FileUpload.allowedTypes ->
      FileUpload.handleFileSelect f = FileUpload.OnFileUpload f
      /\ step st (FileSelected c f) = Some (handleFileUpload c f st)).
Proof.
  split.
  - intros H. destruct (rejected_alerts f H) as [notice Hn].
    exists notice. eexists. simpl. unfold selectFile. rewrite Hn.
    repeat split.
  - intros Hs Ht. apply includes_In in Ht.
    assert (E : FileUpload.handleFileSelect f = FileUpload.OnFileUpload f).
    { unfold FileUpload.handleFileSelect. rewrite Hs, Ht. reflexivity. }
    split; trivial. simpl. unfold selectFile. now rewrite E.
Qed.

Lemma C3_validation_short_circuits_witness :
  (exists notice st',
      step (init 0)
           (FileSelected (at_ms 1000)
              {| File.name := "scan.png";
                 File.size := 11 * 1024 * 1024;
                 File.type := "image/png" |}) = Some st'
      /\ messages st' = messages (init 0)
      /\ requests st' = requests (init 0)
      /\ calls st' = calls (init 0)
      /\ isTyping st' = isTyping (init 0)
      /\ alerts st' = alerts (init 0) ++ [notice])
  /\ (exists notice st',
      step (init 0)
           (FileSelected (at_ms 1000)
              {| File.name := "run.exe";
                 File.size := 10;
                 File.type := "application/x-msdownload" |}) = Some st'
      /\ messages st' = messages (init 0)
      /\ requests st' = requests (init 0)
      /\ calls st' = calls (init 0)
      /\ isTyping st' = isTyping (init 0)
      /\ alerts st' = alerts (init 0) ++ [notice])
  /\ step (init 0)
          (FileSelected (at_ms 1000)
             {| File.name := "scan.png";
                File.size := 10 * 1024 * 1024;
                File.type := "image/png" |})
     = Some (handleFileUpload (at_ms 1000)
               {| File.name := "scan.png";
                  File.size := 10 * 1024 * 1024;
                  File.type := "image/png" |} (init 0)).
Proof.
  split; [|split].
  - apply C3_validation_short_circuits. left. simpl. lia.
  - apply C3_validation_short_circuits. right. simpl.
    intros H. repeat (destruct H as [H|H]; [discriminate|]). exact H.
  - apply C3_validation_short_circuits; [reflexivity|].
    simpl. do 5 right. left. reflexivity.
Defined.

End FileUploadFacts.

(* ================================================================== *)
(** ** Properties of a single dispatch *)

Module DispatchFacts.
Import ChatPage Session ChatPageFacts.

Lemma nth_set_point l : forall n k p q,
  nth_error l n = Some (k, p) ->
  nth_error (set_point n q l) n = Some (k, q).
Proof.
  induction l as [|[k0 p0] l IH]; intros [|n] k p q H; simpl in *;
    try discriminate.
  - now injection H as -> ->.
  - now apply (IH n k p).
Qed.

Lemma run_answered st n k c1 c2 status statusText data :
  nth_error (calls st) n = Some (k, AtFetch) ->
  Fetch.ok status = true ->
  run st (answered c1 c2 n status statusText data)
  = Some (after_json c2 n k (Fetch.Parsed data) (suspend_at_json n st)).
Proof.
  intros Hn Hok. simpl. rewrite Hn. simpl. rewrite Hok. simpl.
  now rewrite (nth_set_point _ _ _ _ AtJson Hn).
Qed.

(** C4 (as amended).  A 2xx answer whose body is an object with a
    non-empty string under [response] yields an assistant message with
    exactly that string as content; when the body is an object without
    [response], or with the empty string under it, the content is the
    fallback of the handler. *)
Theorem C4_content_of_answer (st : state) (n : nat) (k : call)
  (c1 c2 : clock) (status : Z) (statusText : string)
  (members : list (string * JS.value)) :
  nth_error (calls st) n = Some (k, AtFetch) ->
  Fetch.ok status = true ->
  exists st' m,
    run st (answered c1 c2 n status statusText (JS.JObj members)) = Some st'
    /\ messages st' = messages st ++ [m]
    /\ sender m = ai
    /\ (forall s, JS.lookup "response" members = Some (JS.JStr s) ->
                  s <> EmptyString -> content m = JS.JStr s)
    /\ (JS.lookup "response" members = None
        \/ JS.lookup "response" members = Some (JS.JStr EmptyString) ->
        content m = JS.JStr (fallback k)).
Proof.
  intros Hn Hok. rewrite (run_answered _ _ k); trivial.
  unfold after_json. simpl JS.get.
  destruct (JS.lookup "response" members) as [v|] eqn:Hl; simpl.
  - destruct (JS.truthy v) eqn:Hv; eexists; eexists;
      (split; [reflexivity|]); (split; [reflexivity|]);
      (split; [reflexivity|]); simpl; split.
    + now intros s [= ->] _.
    + intros [H|[= ->]]; discriminate.
    + intros s [= ->] Hs. simpl in Hv.
      apply negb_false_iff, String.eqb_eq in Hv. contradiction.
    + reflexivity.
  - eexists; eexists. repeat split; trivial. discriminate.
Qed.

Lemma C4_content_of_answer_witness :
  exists st' m,
    run (handleFileUpload (at_ms 1000) notes (init 0))
        (answered (at_ms 1200) (at_ms 1210) 0 200 "OK" (answer "OK"))
    = Some st'
    /\ messages st' = messages (handleFileUpload (at_ms 1000) notes (init 0)) ++ [m]
    /\ content m = JS.JStr "OK".
Proof.
  destruct (C4_content_of_answer
              (handleFileUpload (at_ms 1000) notes (init 0)) 0
              (InFileUpload notes) (at_ms 1200) (at_ms 1210) 200 "OK"
              [("response", JS.JStr "OK")] eq_refl eq_refl)
    as (st' & m & Hr & Hm & _ & Hc & _).
  exists st', m. repeat split; trivial.
  apply Hc; [reflexivity | discriminate].
Defined.

(** C4 as stated fails for the empty string: the content is the fallback,
    not [body.response]. *)
Lemma C4_empty_response_falls_back :
  exists st m,
    run (init 0) empty_answer = Some st
    /\ nth_error (messages st) 2 = Some m
    /\ content m = JS.JStr (fallback (InFileUpload notes))
    /\ content m <> JS.JStr EmptyString.
Proof.
  eexists; eexists. split; [vm_compute; reflexivity|].
  split; [reflexivity|]. split; [reflexivity|]. discriminate.
Qed.

Lemma submit_accepted st e :
  submitted e <> [] ->
  exists st', step st e = Some st' /\ messages st' = messages st ++ submitted e.
Proof.
  intros Hs.
  assert (exists st', step st e = Some st') as [st' He]
    by (destruct e; simpl in *; try congruence; eauto).
  exists st'. split; trivial.
  destruct (step_effect _ _ _ He) as [m Hs' _ Hm _ _ | Hs' _ _ _ | m Hs' _ _ _ _ _];
    congruence.
Qed.

(** C5.  However a dispatch fails (rejected [fetch], non-2xx status,
    rejected body, [null] body), the handler appends one assistant message
    whose content is the fixed error text of the handler, logs the error
    it caught to the console, lowers [isTyping], keeps the earlier
    messages, and the page accepts any further submit action. *)
Theorem C5_failure_is_reported_and_survived (st : state) (n : nat) (k : call)
  (c0 c : clock) (f : failure) :
  nth_error (calls st) n = Some (k, AtFetch) ->
  proper f = true ->
  exists st',
    run st (failing c0 c n f) = Some st'
    /\ messages st' = messages st ++ [aiMessage c (JS.JStr (errorContent k))]
    /\ console st' = console st ++ [(errorLabel k, caught f)]
    /\ isTyping st' = false
    /\ forall e, submitted e <> [] ->
         exists st'', step st' e = Some st''
                      /\ messages st'' = messages st' ++ submitted e.
Proof.
  intros Hn Hp.
  pose proof (nth_set_point _ _ _ _ AtJson Hn) as Hj.
  destruct f as [e | status statusText | status statusText e | status statusText];
    simpl in Hp; simpl run; rewrite Hn; simpl.
  - eexists. split; [reflexivity|]. repeat split. apply submit_accepted.
  - rewrite Hp. eexists. split; [reflexivity|]. repeat split.
    apply submit_accepted.
  - rewrite Hp. simpl. rewrite Hj.
    eexists. split; [reflexivity|]. repeat split. apply submit_accepted.
  - rewrite Hp. simpl. rewrite Hj.
    eexists. split; [reflexivity|]. repeat split. apply submit_accepted.
Qed.

Lemma C5_failure_is_reported_and_survived_witness :
  exists st',
    run (handleSendMessage (at_ms 1000) "hello" (init 0))
        [FetchSettled (at_ms 1200) 0 (Fetch.Responded 503 "Service Unavailable")]
    = Some st'
    /\ map content (messages st')
       = [ JS.JStr "Hello! I'm your AI assistant. How can I help you today?";
           JS.JStr "hello";
           JS.JStr "Sorry, I encountered an error while processing your message. Please try again." ]
    /\ console st'
       = [("Error sending message:", JS.mkError "HTTP error! status: 503")]
    /\ isTyping st' = false.
Proof.
  destruct (C5_failure_is_reported_and_survived
              (handleSendMessage (at_ms 1000) "hello" (init 0)) 0
              (InSendMessage "hello") (at_ms 1200) (at_ms 1200)
              (HttpFailure 503 "Service Unavailable") eq_refl eq_refl)
    as (st' & Hr & Hm & Hc & Ht & _).
  exists st'. split; [exact Hr|]. rewrite Hm, Hc. repeat split. exact Ht.
Defined.

Lemma append_empty (s : string) : (s ++ EmptyString)%string = s.
Proof.
  induction s as [|a s IH]; simpl; [reflexivity | now rewrite IH].
Qed.

Lemma whole_seconds (s : Z) :
  0 <= s -> JS.Seconds_toString {| JS.millis := 1000 * s |} = JS.Z_toString s.
Proof.
  intros Hs. unfold JS.Seconds_toString. cbn [JS.millis].
  rewrite Z.abs_eq by lia.
  replace (1000 * s <? 0) with false by (symmetry; apply Z.ltb_ge; lia).
  rewrite (Z.mul_comm 1000 s), Z.div_mul, Z.mod_mul by lia.
  cbn [Z.eqb String.append]. apply append_empty.
Qed.

(** C8 (as amended).  When the 2xx answer to an audio dispatch has no
    [response], the content of the assistant message is the audio
    fallback with the duration embedded as the number prints, unrounded;
    for a whole number of seconds that is the integer. *)
Theorem C8_audio_fallback_embeds_duration (st : state) (n : nat)
  (audioBlob : Blob.t) (duration : JS.Seconds) (c1 c2 : clock)
  (status : Z) (statusText : string) (data : JS.value) :
  nth_error (calls st) n = Some (InAudioUpload audioBlob duration, AtFetch) ->
  Fetch.ok status = true ->
  JS.get data "response" = JS.Undefined ->
  exists st' m,
    run st (answered c1 c2 n status statusText data) = Some st'
    /\ messages st' = messages st ++ [m]
    /\ sender m = ai
    /\ content m
       = JS.JStr ("I've received and processed your voice message ("
                  ++ JS.Seconds_toString duration ++ "s).")
    /\ forall s, 0 <= s -> duration = {| JS.millis := 1000 * s |} ->
         content m
         = JS.JStr ("I've received and processed your voice message ("
                    ++ JS.Z_toString s ++ "s).").
Proof.
  intros Hn Hok Hg. rewrite (run_answered _ _ _ _ _ _ _ _ Hn Hok).
  unfold after_json. rewrite Hg. cbn [JS.or_else].
  eexists; eexists. split; [reflexivity|]. split; [reflexivity|].
  split; [reflexivity|]. split; [reflexivity|].
  intros s Hs ->. cbn [content aiMessage finish fallback].
  now rewrite whole_seconds.
Qed.

Lemma C8_audio_fallback_embeds_duration_witness :
  exists st m,
    run (init 0) seven_second_voice = Some st
    /\ nth_error (messages st) 2 = Some m
    /\ content m
       = JS.JStr "I've received and processed your voice message (7s).".
Proof.
  destruct (C8_audio_fallback_embeds_duration
              (handleAudioUpload (at_ms 1000) voice seven_seconds (init 0)) 0
              voice seven_seconds (at_ms 1200) (at_ms 1210) 200 "OK"
              (JS.JObj []) eq_refl eq_refl eq_refl)
    as (st & m & Hr & Hm & _ & _ & Hc).
  exists st, m. split; [exact Hr|]. split; [now rewrite Hm|].
  apply (Hc 7); [lia | reflexivity].
Defined.

(** C8 as stated fails: a duration of 2.345 seconds is embedded as
    [2.345], not as the rounded [2]. *)
Lemma C8_duration_is_not_rounded :
  exists st m,
    run (init 0) short_voice = Some st
    /\ nth_error (messages st) 2 = Some m
    /\ JS.Math_round {| JS.millis := 2345 |} = 2
    /\ content m
       = JS.JStr "I've received and processed your voice message (2.345s)."
    /\ content m
       <> JS.JStr ("I've received and processed your voice message ("
                   ++ JS.Z_toString (JS.Math_round {| JS.millis := 2345 |})
                   ++ "s).").
Proof.
  eexists; eexists. split; [vm_compute; reflexivity|].
  split; [reflexivity|]. split; [reflexivity|]. split; [reflexivity|].
  vm_compute. discriminate.
Qed.

End DispatchFacts.

(* ================================================================== *)
(** ** Message ids *)

Module IdFacts.
Import ChatPage Session ChatPageFacts.

Lemma int_of_Z_toString (z : Z) :
  NilZero.int_of_string (JS.Z_toString z) = Some (Z.to_int z).
Proof.
  unfold JS.Z_toString. apply NilZero.isi; destruct z; simpl;
    intros [= H]; try discriminate;
    now apply (DecimalPos.Unsigned.to_uint_nonnil p).
Qed.

Lemma id_number_built (m : Message) (z : Z) :
  id m = JS.Z_toString z -> id_number m = Some z.
Proof.
  intros H. unfold id_number. rewrite H, int_of_Z_toString.
  now rewrite DecimalZ.of_to.
Qed.

Lemma sorted_NoDup (l : list Z) : StronglySorted Z.lt l -> NoDup l.
Proof.
  induction 1 as [|a l Hl IH Ha]; constructor; trivial.
  intros Hin. rewrite Forall_forall in Ha. specialize (Ha a Hin). lia.
Qed.

(** The ids of the messages which an event appends stand for the numbers
    of its stamps. *)
Lemma step_stamps st e st' :
  step st e = Some st' ->
  exists l,
    messages st' = messages st ++ l
    /\ map id_number l = map Some (map stamp_number (stamps e)).
Proof.
  assert (Hu : forall c k,
             map id_number [userMessage c k] = [Some (Date_now c)])
    by (intros c k; simpl; f_equal; apply id_number_built; now destruct k).
  assert (Ha : forall c v,
             map id_number [aiMessage c v] = [Some (Date_now c + 1)])
    by (intros c v; simpl; f_equal; now apply id_number_built).
  destruct e as [c t | c f | c b d | c n r | c n r]; simpl; intros H.
  - injection H as <-. eexists. split; [reflexivity|]. apply Hu.
  - injection H as <-. unfold selectFile, stamps. simpl.
    destruct (FileUpload.handleFileSelect f) as [notice | f'].
    + exists []. simpl. now rewrite app_nil_r.
    + eexists. split; [reflexivity|]. apply Hu.
  - injection H as <-. eexists. split; [reflexivity|]. apply Hu.
  - destruct (nth_error (calls st) n) as [[k [| |]]|]; try discriminate.
    injection H as <-. unfold after_fetch, catch, stamps. simpl.
    destruct r as [err | status statusText].
    + eexists. split; [reflexivity|]. apply Ha.
    + destruct (Fetch.ok status); simpl.
      * exists []. simpl. now rewrite app_nil_r.
      * eexists. split; [reflexivity|]. apply Ha.
  - destruct (nth_error (calls st) n) as [[k [| |]]|]; try discriminate.
    injection H as <-. unfold after_json, catch, stamps. simpl.
    destruct r as [err | data]; [|destruct (JS.or_else _ _)];
      eexists; (split; [reflexivity|]); apply Ha.
Qed.

Lemma run_stamps tr : forall st st',
  run st tr = Some st' ->
  map id_number (messages st')
  = map id_number (messages st)
    ++ map Some (map stamp_number (flat_map stamps tr)).
Proof.
  induction tr as [|e tr IH]; intros st st' Hr; simpl in Hr.
  - injection Hr as <-. simpl. now rewrite app_nil_r.
  - destruct (step st e) as [mid|] eqn:He; [|discriminate].
    destruct (step_stamps _ _ _ He) as (l & Hm & Hl).
    rewrite (IH _ _ Hr), Hm. simpl.
    now rewrite !map_app, Hl, <- app_assoc.
Qed.

Lemma in_time_lt (a b : Sender * Z) :
  in_time a b <-> stamp_number a < stamp_number b.
Proof.
  destruct a as [[|] x], b as [[|] y]; unfold in_time, stamp_number; simpl;
    lia.
Qed.

(** The readings are far enough apart exactly when the numbers of the ids
    increase. *)
Lemma timely_sorted (l : list (Sender * Z)) : forall prev,
  timely prev l
  <-> StronglySorted Z.lt (stamp_number prev :: map stamp_number l).
Proof.
  induction l as [|x l IH]; intros prev; simpl.
  - split; trivial. intros _. repeat constructor.
  - rewrite in_time_lt, IH. split.
    + intros [Hlt Hs]. constructor; trivial. constructor; trivial.
      inversion Hs as [|? ? _ Hall]; subst.
      eapply Forall_impl; [|exact Hall]. simpl. intros; lia.
    + intros Hs. inversion Hs as [|? ? Hs' Hall]; subst.
      inversion Hall; subst. now split.
Qed.

Lemma map_Some_injective (l1 : list Z) : forall l2,
  map Some l1 = map Some l2 -> l1 = l2.
Proof.
  induction l1 as [|a l1 IH]; intros [|b l2] H; simpl in H;
    try discriminate; trivial.
  injection H as -> H. f_equal. now apply IH.
Qed.

(** C9 (as amended).  The ids of a session stand for numbers that
    increase strictly in creation order exactly when the clock readings
    taken for consecutive messages are far enough apart: a user message at
    a later millisecond than the user message before it and two
    milliseconds or more after the reply before it, a reply no earlier
    than the user message before it and at a later millisecond than the
    reply before it; and then the ids are pairwise different. *)
Theorem C9_ids_increase_when_clock_is_timely (d : Z) (tr : list event)
  (st : state) :
  run (init d) tr = Some st ->
  (timely seed_stamp (flat_map stamps tr)
   <-> exists nums,
         map id_number (messages st) = map Some nums
         /\ StronglySorted Z.lt nums)
  /\ (timely seed_stamp (flat_map stamps tr) ->
      NoDup (map id (messages st))).
Proof.
  intros Hr. pose proof (run_stamps tr (init d) st Hr) as Hn.
  change (map id_number (messages (init d))) with [Some 1] in Hn.
  simpl in Hn.
  assert (Hiff : timely seed_stamp (flat_map stamps tr)
                 <-> exists nums,
                       map id_number (messages st) = map Some nums
                       /\ StronglySorted Z.lt nums).
  { rewrite timely_sorted. change (stamp_number seed_stamp) with 1. split.
    - intros Hs. exists (1 :: map stamp_number (flat_map stamps tr)).
      split; [exact Hn | exact Hs].
    - intros (nums & Hm & Hs). rewrite Hn in Hm.
      change (Some 1 :: map Some (map stamp_number (flat_map stamps tr)))
        with (map Some (1 :: map stamp_number (flat_map stamps tr))) in Hm.
      apply map_Some_injective in Hm. now rewrite Hm. }
  split; trivial.
  intros Ht. apply Hiff in Ht as (nums & Hm & Hs).
  apply (NoDup_map_inv
           (fun s => match NilZero.int_of_string s with
                     | Some i => Some (Z.of_int i)
                     | None => None
                     end)).
  rewrite map_map. change (NoDup (map id_number (messages st))).
  rewrite Hm. apply Injective_map_NoDup.
  - now intros x y [= ->].
  - now apply sorted_NoDup.
Qed.

Lemma C9_ids_increase_when_clock_is_timely_witness :
  exists st,
    run (init 0) instant_failure = Some st
    /\ map id (messages st) = ["1"; "1000"; "1001"]
    /\ NoDup (map id (messages st)).
Proof.
  eexists. split; [vm_compute; reflexivity|]. split; [reflexivity|].
  apply (C9_ids_increase_when_clock_is_timely 0 instant_failure _ eq_refl).
  simpl. unfold in_time. simpl. lia.
Defined.

(** C9 as stated fails: a dispatch that fails at 1499 ms gets the id 1500
    for its assistant message, and so does the user message sent one
    millisecond later. *)
Lemma C9_ids_collide :
  exists st m1 m2,
    run (init 0) quick_retry = Some st
    /\ nth_error (messages st) 2 = Some m1
    /\ nth_error (messages st) 3 = Some m2
    /\ id m1 = "1500" /\ id m2 = "1500".
Proof.
  eexists; eexists; eexists. split; [vm_compute; reflexivity|].
  repeat split.
Qed.

End IdFacts.

(* ================================================================== *)
(** ** The audio recorder's teardown *)

Module AudioRecorderFacts.
Import AudioRecorder.

Local Open Scope nat_scope.

Lemma releases_stop_other s s' w d :
  s <> s' -> dev w = stop_tracks s' d ->
  releases s w = count_occ Nat.eq_dec (track_stops d) s.
Proof.
  intros Hs Hd. unfold releases. rewrite Hd. simpl.
  rewrite count_occ_app. simpl.
  destruct (Nat.eq_dec s' s); [congruence | lia].
Qed.

Lemma abandoned_step s w e w' :
  abandoned s w -> step w e = Some w' -> abandoned s w'.
Proof.
  intros (Hl & Hq & Hs & Hr) He. unfold step in He. rewrite Hl in He.
  destruct e as [ | p | now p | | r chunk | now r | | | | now p ];
    try discriminate.
  - injection He as <-. destruct p as [|err]; simpl.
    + repeat split; simpl; trivial; [lia|].
      unfold releases. simpl. rewrite count_occ_app. simpl.
      destruct (Nat.eq_dec (streams (dev w)) s); [lia|].
      unfold releases in Hr. lia.
    + now repeat split.
  - destruct (nth_error (recorders (dev w)) r); [|discriminate].
    injection He as <-. unfold ondataavailable.
    destruct (Blob.size chunk >? 0)%Z; now repeat split.
  - destruct (nth_error (recorders (dev w)) r) as [m|] eqn:Hn; [|discriminate].
    rewrite Forall_forall in Hq.
    rewrite (Hq m (nth_error_In _ _ Hn)) in He. discriminate.
  - destruct (intervals (dev w)); [discriminate|].
    injection He as <-. now repeat split.
  - destruct (starting w) as [|k]; [discriminate|].
    injection He as <-. unfold abandoned, releases in *.
    destruct p as [|err]; simpl.
    + split; [exact Hl|]. split; [|split; [lia | exact Hr]].
      apply Forall_app. split; trivial. now repeat constructor.
    + now repeat split.
Qed.

Lemma abandoned_run s tr : forall w w',
  abandoned s w -> run w tr = Some w' -> abandoned s w'.
Proof.
  induction tr as [|e tr IH]; intros w w' Ha Hr; simpl in Hr.
  - now injection Hr as <-.
  - destruct (step w e) as [mid|] eqn:He; [|discriminate].
    apply (IH mid); trivial. now apply (abandoned_step s w e).
Qed.

(** C7, evaluated.  After a teardown in the middle of a recording the
    recorder is still recording, the stream it records from (stream 1;
    stream 0 was the permission probe) is still referenced, and its
    tracks were stopped zero times. *)
Theorem C7_teardown_leaves_the_stream_open :
  exists w,
    run unmounted teardown_while_recording = Some w
    /\ life w = Gone
    /\ nth_error (recorders (dev w)) 0
       = Some {| stream := 1; state := recording; stop_queued := false |}
    /\ streamRef (rf w) = Some 1
    /\ releases 1 w = 0.
Proof.
  eexists. split; [vm_compute; reflexivity|]. repeat split.
Qed.

(** Nothing that can happen after that teardown stops the tracks. *)
Lemma stream_stays_open w tr w' :
  run unmounted teardown_while_recording = Some w ->
  run w tr = Some w' -> releases 1 w' = 0.
Proof.
  intros Hw Hr. vm_compute in Hw. injection Hw as <-.
  refine (proj2 (proj2 (proj2 (abandoned_run 1 tr _ w' _ Hr)))).
  repeat split; simpl; try lia. repeat constructor.
Qed.

Lemma stale_step w e w' :
  stale w -> step w e = Some w' -> stale w'.
Proof.
  unfold stale, step. intros Hw He.
  destruct e as [ | p | now p | | r chunk | now r | | | | now p ].
  - destruct Hw as [(Hl & Hi & Hz) | [Hl | Hl]]; rewrite Hl in He;
      try discriminate.
    injection He as <-. simpl. rewrite Hi. auto.
  - assert (E : w' = checkMicrophonePermission p w)
      by (destruct (life w); congruence).
    subst w'. destruct p; simpl; exact Hw.
  - destruct Hw as [(Hl & Hi & Hz) | [Hl | Hl]]; rewrite Hl in He;
      try discriminate.
    destruct (isRecording (st w)); [discriminate|].
    injection He as <-. destruct p; simpl; auto.
  - destruct Hw as [(Hl & Hi & Hz) | [Hl | Hl]]; rewrite Hl in He;
      try discriminate.
    destruct (isRecording (st w)); [|discriminate].
    unfold stopRecording in He.
    destruct (mediaRecorderRef (rf w)); [|injection He as <-; auto].
    destruct (recorder_stop _ _); [|discriminate].
    injection He as <-. simpl. auto.
  - assert (E : w' = ondataavailable chunk w)
      by (destruct (life w), (nth_error _ _); congruence).
    subst w'. unfold ondataavailable.
    destruct (Blob.size chunk >? 0)%Z; simpl; exact Hw.
  - assert (exists m, w' = onstop now r m w) as [m ->].
    { destruct (life w), (nth_error _ _) as [m|]; try discriminate;
        destruct (stop_queued m); try discriminate;
        injection He as <-; eauto. }
    simpl. exact Hw.
  - assert (E : w' = tick w)
      by (destruct (life w), (intervals (dev w)); congruence).
    subst w'. simpl.
    destruct Hw as [(Hl & Hi & Hz) | [Hl | Hl]]; auto.
  - destruct Hw as [(Hl & Hi & Hz) | [Hl | Hl]]; rewrite Hl in He;
      try discriminate.
    unfold run_cleanup, stopRecording in He. simpl in He.
    destruct (mediaRecorderRef (rf w)); injection He as <-; auto.
  - destruct Hw as [(Hl & Hi & Hz) | [Hl | Hl]]; rewrite Hl in He;
      try discriminate.
    destruct (isRecording (st w)); [discriminate|].
    injection He as <-. simpl. auto.
  - destruct Hw as [(Hl & Hi & Hz) | [Hl | Hl]].
    + rewrite Hz in He. now destruct (life w).
    + assert (exists k, w' = startRecording now p (resume k w)) as [k ->]
        by (destruct (life w), (starting w); try discriminate;
            injection He as <-; eauto).
      destruct p; simpl; auto.
    + assert (exists k, w' = startRecording now p (resume k w)) as [k ->]
        by (destruct (life w), (starting w); try discriminate;
            injection He as <-; eauto).
      destruct p; simpl; auto.
Qed.

Lemma stale_run tr : forall w w',
  stale w -> run w tr = Some w' -> stale w'.
Proof.
  induction tr as [|e tr IH]; intros w w' Hw Hr; simpl in Hr.
  - now injection Hr as <-.
  - destruct (step w e) as [mid|] eqn:He; [|discriminate].
    apply (IH mid); trivial. now apply (stale_step w e).
Qed.

(** X9.  In every session the teardown stops no recorder and no track:
    the [stopRecording] it calls is the one of the first render, which
    finds [isRecording = false]. *)
Lemma teardown_stops_nothing tr w w' :
  run unmounted tr = Some w -> step w Unmount = Some w' ->
  recorders (dev w') = recorders (dev w)
  /\ track_stops (dev w') = track_stops (dev w).
Proof.
  intros Hr He.
  assert (Hw : stale w)
    by (apply (stale_run tr unmounted); [left; repeat split|]; auto).
  unfold step in He.
  destruct Hw as [[Hl Hi] | [Hl | Hl]]; rewrite Hl in He; try discriminate.
  unfold run_cleanup, stopRecording in He. simpl in He.
  destruct (mediaRecorderRef (rf w)); injection He as <-; simpl;
    destruct (timerRef (rf w)); auto.
Qed.

(** Stopping with the button releases the stream once. *)
Remark button_releases_once :
  exists w,
    run unmounted stopped_by_button = Some w
    /\ releases 1 w = 1
    /\ streamRef (rf w) = None
    /\ map snd (uploads w) = [{| JS.millis := 2300 |}].
Proof.
  eexists. split; [vm_compute; reflexivity|]. repeat split.
Qed.

End AudioRecorderFacts.

(* ================================================================== *)
(** ** The log relay *)

Module LogAnalysisFacts.
Import LogAnalysisService.

(** The request carries the array as received, to the fixed address. *)
Lemma analyzeLogs_forwards (logs : list string) (d : downstream) :
  Fetch.url (fst (analyzeLogs logs d)) = "http://localhost:8001/analyze"
  /\ Fetch.payload (fst (analyzeLogs logs d))
     = Fetch.Json (JS.JObj [("logs", JS.JArr (map JS.JStr logs))]).
Proof. split; reflexivity. Qed.

(** X13.  Everything thrown inside the [try] is replaced by the
    exception of the [catch] block, whose status is 500. *)
Lemma analyzeLogs_throws_500 (logs : list string) (d : downstream) (e : thrown) :
  snd (analyzeLogs logs d) = Throw e ->
  e = Http {| response := "Failed to reach Python agent"; status := 500 |}.
Proof.
  unfold analyzeLogs, try_catch, bind, await_fetch, await_json. simpl.
  destruct (fetched d) as [err | s t]; simpl.
  - now intros [= <-].
  - destruct (negb (Fetch.ok s)); simpl.
    + now intros [= <-].
    + destruct (parsed d); simpl; [now intros [= <-] | discriminate].
Qed.

(** C6, evaluated.  When the downstream service answers 404, the
    exception of [analyzeLogs] carries the status 500, not 404: the
    exception thrown for [!response.ok] is caught by the [catch] block of
    the same [try]. *)
Theorem C6_downstream_status_is_lost :
  forall logs body,
    analyzeLogs logs {| fetched := Fetch.Responded 404 "Not Found";
                        parsed := body |}
    = (request_of logs,
       Throw (Http {| response := "Failed to reach Python agent";
                      status := 500 |})).
Proof. reflexivity. Qed.

End LogAnalysisFacts.

(* ================================================================== *)
(** ** More on the chat page: requests, bodies, order of replies *)

Module RequestFacts.
Import ChatPage Session ChatPageFacts DispatchFacts.

Local Open Scope nat_scope.

Lemma map_fst_set_point l : forall n p,
  map fst (set_point n p l) = map fst l.
Proof.
  induction l as [|[k0 p0] l IH]; intros [|n] p; simpl; trivial.
  now rewrite IH.
Qed.

Lemma nth_set_point_other l : forall n n' p,
  n <> n' -> nth_error (set_point n p l) n' = nth_error l n'.
Proof.
  induction l as [|[k0 p0] l IH]; intros [|n] [|n'] p H; simpl; trivial.
  - congruence.
  - apply IH. congruence.
Qed.

Lemma step_requests st e st' :
  step st e = Some st' -> one_request_each st ->
  one_request_each st'
  /\ List.length (requests st')
     = List.length (requests st) + List.length (submitted e)
  /\ (submitted e = [] -> requests st' = requests st).
Proof.
  unfold one_request_each. intros He Hi.
  assert (Hb : forall c k,
             requests (begin c k st)
             = map request_of (map fst (calls (begin c k st)))
             /\ List.length (requests (begin c k st))
                = List.length (requests st) + 1).
  { intros c k. simpl. rewrite !map_app, Hi, length_app. now simpl. }
  destruct e as [c t | c f | c b d | c n r | c n r]; simpl in *.
  - injection He as <-. destruct (Hb c (InSendMessage t)) as [H1 H2].
    repeat split; trivial; try discriminate.
  - injection He as <-. unfold selectFile.
    destruct (FileUpload.handleFileSelect f) as [notice | f'].
    + simpl. repeat split; trivial; try lia.
    + destruct (Hb c (InFileUpload f')) as [H1 H2].
      repeat split; trivial; try discriminate.
  - injection He as <-. destruct (Hb c (InAudioUpload b d)) as [H1 H2].
    repeat split; trivial; try discriminate.
  - destruct (nth_error (calls st) n) as [[k [| |]]|]; try discriminate.
    injection He as <-. unfold after_fetch, catch.
    destruct r as [err | status statusText];
      [|destruct (negb (Fetch.ok status))]; simpl;
      rewrite map_fst_set_point; repeat split; trivial; lia.
  - destruct (nth_error (calls st) n) as [[k [| |]]|]; try discriminate.
    injection He as <-. unfold after_json, catch.
    destruct r as [err | data]; [|destruct (JS.or_else _ _)]; simpl;
      rewrite map_fst_set_point; repeat split; trivial; lia.
Qed.

Lemma run_requests tr : forall st st',
  run st tr = Some st' -> one_request_each st ->
  one_request_each st'
  /\ List.length (requests st') = List.length (requests st) + submissions tr.
Proof.
  unfold submissions.
  induction tr as [|e tr IH]; intros st st' Hr Hi; simpl in *.
  - injection Hr as <-. split; trivial; try lia.
  - destruct (step st e) as [mid|] eqn:He; [|discriminate].
    destruct (step_requests _ _ _ He Hi) as (Hm & Hl & _).
    destruct (IH _ _ Hr Hm) as (Hi' & Hl').
    split; trivial. rewrite length_app. lia.
Qed.

(** The activations are those started by the submit actions of the
    trace, in their order. *)
Lemma step_calls st e st' :
  step st e = Some st' ->
  map fst (calls st') = map fst (calls st) ++ dispatched e.
Proof.
  destruct e as [c t | c f | c b d | c n r | c n r]; simpl; intros He.
  - injection He as <-. simpl. now rewrite map_app.
  - injection He as <-. unfold selectFile.
    destruct (FileUpload.handleFileSelect f) as [notice | f']; simpl.
    + now rewrite app_nil_r.
    + now rewrite map_app.
  - injection He as <-. simpl. now rewrite map_app.
  - destruct (nth_error (calls st) n) as [[k [| |]]|]; try discriminate.
    injection He as <-. unfold after_fetch, catch.
    destruct r as [err | status statusText];
      [|destruct (negb (Fetch.ok status))]; simpl;
      now rewrite map_fst_set_point, app_nil_r.
  - destruct (nth_error (calls st) n) as [[k [| |]]|]; try discriminate.
    injection He as <-. unfold after_json, catch.
    destruct r as [err | data]; [|destruct (JS.or_else _ _)]; simpl;
      now rewrite map_fst_set_point, app_nil_r.
Qed.

Lemma run_calls tr : forall st st',
  run st tr = Some st' ->
  map fst (calls st') = map fst (calls st) ++ flat_map dispatched tr.
Proof.
  induction tr as [|e tr IH]; intros st st' Hr; simpl in Hr.
  - injection Hr as <-. simpl. now rewrite app_nil_r.
  - destruct (step st e) as [mid|] eqn:He; [|discriminate].
    rewrite (IH _ _ Hr), (step_calls _ _ _ He). simpl.
    now rewrite app_assoc.
Qed.

(** X1.  In every session [fetch] was called once for every submit
    action of the trace that got through validation, and for nothing
    else: the requests sent are, in the order of the actions, the requests
    built from the text, the file, or the clip and duration of each
    action; and an event that submits nothing (a settlement, a rejected
    file) sends no request. *)
Theorem one_fetch_per_dispatch (d : Z) (tr : list event) (st : state) :
  run (init d) tr = Some st ->
  requests st = map request_of (flat_map dispatched tr)
  /\ List.length (requests st) = submissions tr
  /\ forall e st', step st e = Some st' -> submitted e = [] ->
                   requests st' = requests st.
Proof.
  intros Hr.
  destruct (run_requests tr (init d) st Hr eq_refl) as (Hi & Hl).
  split; [|split]; trivial.
  - unfold one_request_each in Hi. rewrite Hi.
    now rewrite (run_calls tr (init d) st Hr).
  - intros e st' He. now apply (step_requests st e st' He Hi).
Qed.

Lemma one_fetch_per_dispatch_witness :
  exists st,
    run (init 0) one_by_one = Some st
    /\ requests st
       = [ {| Fetch.url := "/analyze"; Fetch.method := "POST";
              Fetch.headers := [("Content-Type", "application/json")];
              Fetch.payload :=
                Fetch.Json (JS.JObj [("message", JS.JStr "hello");
                                     ("type", JS.JStr "text")]) |};
           {| Fetch.url := "/analyze"; Fetch.method := "POST";
              Fetch.headers := [];
              Fetch.payload :=
                Fetch.FormData [("file", Fetch.FilePart notes);
                                ("type", Fetch.Field "file")] |} ].
Proof.
  eexists. split; [vm_compute; reflexivity|].
  destruct (one_fetch_per_dispatch 0 one_by_one _ eq_refl) as (Hq & _).
  exact Hq.
Defined.

(** X2.  What a 2xx answer with a parsed body other than [null] puts
    into the assistant message: a truthy [response] that is a string, a
    number or [true] is stored as it is (a number or [true] although
    [content] is declared a string); a falsy [response] ([null], [false],
    a zero, [NaN], the empty string) and any body that is not an object
    (an array, a string, a number, a boolean) give the fallback of the
    handler. *)
Theorem content_for_any_body (st : state) (n : nat) (k : call)
  (c1 c2 : clock) (status : Z) (statusText : string) (data : JS.value) :
  nth_error (calls st) n = Some (k, AtFetch) ->
  Fetch.ok status = true ->
  data <> JS.JNull ->
  exists st' m,
    run st (answered c1 c2 n status statusText data) = Some st'
    /\ messages st' = messages st ++ [m]
    /\ sender m = ai
    /\ (forall members v,
          data = JS.JObj members ->
          JS.lookup "response" members = Some v ->
          JS.truthy v = true ->
          (exists s, v = JS.JStr s) \/ (exists x, v = JS.JNum x)
          \/ v = JS.JBool true ->
          content m = v)
    /\ (forall members v,
          data = JS.JObj members ->
          JS.lookup "response" members = Some v ->
          v = JS.JNull \/ v = JS.JBool false
          \/ (exists sign, v = JS.JNum (S754_zero sign))
          \/ v = JS.JNum S754_nan \/ v = JS.JStr EmptyString ->
          content m = JS.JStr (fallback k))
    /\ ((forall members, data <> JS.JObj members) ->
        content m = JS.JStr (fallback k)).
Proof.
  intros Hn Hok Hnull. rewrite (run_answered _ _ k); trivial.
  unfold after_json.
  destruct (JS.or_else (JS.get data "response") (JS.JStr (fallback k)))
    as [w|] eqn:Hw.
  - eexists; eexists. split; [reflexivity|]. split; [reflexivity|].
    split; [reflexivity|]. simpl. repeat split.
    + intros members v -> Hl Hv _. simpl in Hw. rewrite Hl in Hw.
      simpl in Hw. rewrite Hv in Hw. congruence.
    + intros members v -> Hl Hv. simpl in Hw. rewrite Hl in Hw.
      simpl in Hw.
      assert (Hf : JS.truthy v = false)
        by (destruct Hv as [-> | [-> | [[sg ->] | [-> | ->]]]]; reflexivity).
      rewrite Hf in Hw. congruence.
    + intros Hno. destruct data; simpl in Hw; congruence.
  - destruct data; simpl in Hw; try discriminate; try congruence.
    destruct (JS.lookup "response" members) as [v|]; simpl in Hw;
      [destruct (JS.truthy v)|]; discriminate.
Qed.

Lemma content_for_any_body_witness :
  exists st' m,
    run (handleSendMessage (at_ms 1000) "hello" (init 0))
        (answered (at_ms 1200) (at_ms 1210) 0 200 "OK"
           (JS.JObj [("response", forty_two)]))
    = Some st'
    /\ messages st'
       = messages (handleSendMessage (at_ms 1000) "hello" (init 0)) ++ [m]
    /\ content m = forty_two.
Proof.
  destruct (content_for_any_body
              (handleSendMessage (at_ms 1000) "hello" (init 0)) 0
              (InSendMessage "hello") (at_ms 1200) (at_ms 1210) 200 "OK"
              (JS.JObj [("response", forty_two)])
              eq_refl eq_refl)
    as (st' & m & Hr & Hm & _ & Hc & _); [discriminate|].
  exists st', m. repeat split; trivial.
  apply (Hc [("response", forty_two)]); trivial.
  right. left. now exists (S754_finite false 21 1).
Defined.

Lemma set_point_twice l : forall n p q,
  set_point n q (set_point n p l) = set_point n q l.
Proof.
  induction l as [|[k0 p0] l IH]; intros [|n] p q; simpl; trivial.
  now rewrite IH.
Qed.

Lemma answer_read (s : string) (b : JS.value) :
  s <> EmptyString ->
  JS.or_else (JS.get (answer s) "response") b = Some (JS.JStr s).
Proof.
  intros Hs. unfold answer. simpl.
  apply String.eqb_neq in Hs. now rewrite Hs.
Qed.

(** X3.  Replies are appended in the order in which the dispatches
    settle, not in the order of submission: when two dispatches are
    pending and the later one is answered first, its reply comes first. *)
Theorem replies_in_settlement_order (st : state) (n1 n2 : nat) (k1 k2 : call)
  (c1 c2 c3 c4 : clock) (s1 s2 : string) :
  nth_error (calls st) n1 = Some (k1, AtFetch) ->
  nth_error (calls st) n2 = Some (k2, AtFetch) ->
  n1 < n2 ->
  s1 <> EmptyString -> s2 <> EmptyString ->
  exists st',
    run st (answered c1 c2 n2 200 "OK" (answer s2)
            ++ answered c3 c4 n1 200 "OK" (answer s1)) = Some st'
    /\ messages st'
       = messages st ++ [aiMessage c2 (JS.JStr s2); aiMessage c4 (JS.JStr s1)]
    /\ pending st = S (S (pending st')).
Proof.
  intros H1 H2 Hlt Hs1 Hs2.
  rewrite run_app, (run_answered _ _ k2); trivial.
  unfold after_json. rewrite (answer_read s2 _ Hs2).
  set (mid := finish n2 _ _ _).
  assert (Hm1 : nth_error (calls mid) n1 = Some (k1, AtFetch)).
  { unfold mid. simpl. rewrite !nth_set_point_other by lia. exact H1. }
  rewrite (run_answered _ _ k1); trivial.
  unfold after_json. rewrite (answer_read s1 _ Hs1).
  eexists. split; [reflexivity|]. split.
  - unfold mid. simpl. now rewrite <- app_assoc.
  - unfold pending, mid. simpl. rewrite !set_point_twice.
    rewrite (suspended_return (calls st) n2 k2 AtFetch H2 eq_refl).
    f_equal. apply (suspended_return _ n1 k1 AtFetch); trivial.
    rewrite nth_set_point_other by lia. exact H1.
Qed.

Lemma replies_in_settlement_order_witness :
  exists st st',
    run (init 0) (firstn 2 overlapping) = Some st
    /\ run st (answered (at_ms 3000) (at_ms 3010) 1 200 "OK" (answer "heard")
               ++ answered (at_ms 4000) (at_ms 4010) 0 200 "OK" (answer "read"))
       = Some st'
    /\ map content (skipn 3 (messages st'))
       = [JS.JStr "heard"; JS.JStr "read"].
Proof.
  eexists. 
  destruct (replies_in_settlement_order
              (handleAudioUpload (at_ms 2000) voice seven_seconds
                 (handleFileUpload (at_ms 1000) notes (init 0)))
              0 1 (InFileUpload notes) (InAudioUpload voice seven_seconds)
              (at_ms 3000) (at_ms 3010) (at_ms 4000) (at_ms 4010)
              "read" "heard" eq_refl eq_refl)
    as (st' & Hr & Hm & _); try lia; try discriminate.
  exists st'. split; [vm_compute; reflexivity|]. split; [exact Hr|].
  rewrite Hm. reflexivity.
Defined.

End RequestFacts.

(* ================================================================== *)
(** ** More on the file control *)

Module FileControlFacts.
Import ChatPage Session FileDrop FileUploadFacts.

(** X4.  The whole decision of [handleFileSelect]: a file is handed on,
    unchanged, exactly when its size is at most 10 MiB and its type is in
    the list; a file over the limit gets the size notice whatever its
    type, and a file within the limit with another type gets the type
    notice. *)
Theorem handleFileSelect_decides (f : File.t) :
  (forall f', FileUpload.handleFileSelect f = FileUpload.OnFileUpload f'
              <-> f' = f
                  /\ File.size f <= 10 * 1024 * 1024
                  /\ In (File.type f) FileUpload.allowedTypes)
  /\ (File.size f > 10 * 1024 * 1024 ->
      FileUpload.handleFileSelect f
      = FileUpload.Alert "File size must be less than 10MB")
  /\ (File.size f <= 10 * 1024 * 1024 ->
      ~ In (File.type f) FileUpload.allowedTypes ->
      FileUpload.handleFileSelect f
      = FileUpload.Alert
          "File type not supported. Please upload PDF, DOC, DOCX, TXT, CSV, or image files.").
Proof.
  unfold FileUpload.handleFileSelect.
  destruct (File.size f >? 10 * 1024 * 1024) eqn:Hs.
  - rewrite Z.gtb_ltb in Hs. apply Z.ltb_lt in Hs.
    split; [|split]; trivial; try lia.
    intros f'. split; [discriminate | lia].
  - rewrite Z.gtb_ltb in Hs. apply Z.ltb_ge in Hs.
    destruct (FileUpload.includes FileUpload.allowedTypes (File.type f)) eqn:Ht;
      simpl.
    + apply includes_In in Ht. split; [|split]; try lia; try contradiction.
      intros f'. split; [intros [= <-]; auto | intros (-> & _); reflexivity].
    + assert (Hn : ~ In (File.type f) FileUpload.allowedTypes).
      { intros H. apply includes_In in H. congruence. }
      split; [|split]; trivial; try lia.
      intros f'. split; [discriminate | intros (_ & _ & H); contradiction].
Qed.

Lemma handleFileSelect_decides_witness :
  FileUpload.handleFileSelect notes = FileUpload.OnFileUpload notes
  /\ FileUpload.handleFileSelect
       {| File.name := "film.bin"; File.size := 20 * 1024 * 1024;
          File.type := "application/octet-stream" |}
     = FileUpload.Alert "File size must be less than 10MB".
Proof.
  split.
  - apply (handleFileSelect_decides notes). split; [reflexivity|].
    split; [simpl; lia | simpl; auto].
  - apply handleFileSelect_decides. simpl. lia.
Defined.

(** X5.  However many files are dropped on the control or picked in the
    input, only the first one is looked at: the page then behaves as for
    that file alone, so it appends at most one message and sends at most
    one request; without a file it stays as it is.  A drop always ends
    the dragging state. *)
Theorem only_the_first_file (c : clock) (files : list File.t) (st : state)
  (isDragging : bool) :
  fst (FileUpload.handleDrop files isDragging) = false
  /\ dropFiles c files st = changeFiles c (Some files) st
  /\ (files = [] -> dropFiles c files st = st)
  /\ (forall f rest, files = f :: rest ->
        dropFiles c files st = selectFile c f st)
  /\ (List.length (messages (dropFiles c files st))
      <= S (List.length (messages st)))%nat
  /\ (List.length (requests (dropFiles c files st))
      <= S (List.length (requests st)))%nat.
Proof.
  destruct files as [|f rest].
  - repeat split; trivial; try discriminate;
      unfold dropFiles, apply_outcome; simpl; lia.
  - assert (E : dropFiles c (f :: rest) st = selectFile c f st).
    { unfold dropFiles, apply_outcome, selectFile. simpl.
      now destruct (FileUpload.handleFileSelect f). }
    rewrite E. repeat split; trivial; try discriminate.
    + now intros f0 rest0 [= <- _].
    + unfold selectFile. destruct (FileUpload.handleFileSelect f); simpl;
        rewrite ?length_app; simpl; lia.
    + unfold selectFile. destruct (FileUpload.handleFileSelect f); simpl;
        rewrite ?length_app; simpl; lia.
Qed.

Lemma only_the_first_file_witness :
  dropFiles (at_ms 1000)
    [ notes;
      {| File.name := "scan.png"; File.size := 4096; File.type := "image/png" |} ]
    (init 0)
  = selectFile (at_ms 1000) notes (init 0).
Proof.
  apply (only_the_first_file (at_ms 1000) _ (init 0) true) with
    (rest := [{| File.name := "scan.png"; File.size := 4096;
                 File.type := "image/png" |}]).
  reflexivity.
Defined.

Lemma handed_on_is_valid f f' :
  FileUpload.handleFileSelect f = FileUpload.OnFileUpload f' ->
  FileUpload.valid f'.
Proof.
  unfold FileUpload.handleFileSelect, FileUpload.valid.
  destruct (File.size f >? 10 * 1024 * 1024) eqn:Hs; [discriminate|].
  destruct (FileUpload.includes FileUpload.allowedTypes (File.type f)) eqn:Ht;
    cbn [negb]; [|discriminate].
  intros [= <-]. rewrite Z.gtb_ltb in Hs. apply Z.ltb_ge in Hs.
  apply includes_In in Ht. split; [lia | exact Ht].
Qed.

Lemma valid_step st e st' :
  step st e = Some st' ->
  Forall valid_call (map fst (calls st)) /\ Forall valid_message (messages st) ->
  Forall valid_call (map fst (calls st'))
  /\ Forall valid_message (messages st').
Proof.
  intros He [Hc Hm].
  assert (Hb : forall c k, valid_call k ->
             Forall valid_call (map fst (calls (begin c k st)))
             /\ Forall valid_message (messages (begin c k st))).
  { intros c k Hk. simpl. rewrite map_app. split.
    - apply Forall_app. split; trivial. now repeat constructor.
    - apply Forall_app. split; trivial. constructor; [|constructor].
      destruct k as [t | f | b d]; unfold valid_message; simpl;
        try discriminate.
      intros _. exists (File.size f). split; trivial. apply Hk. }
  assert (Hf : forall n m logged, type m = text ->
             Forall valid_call (map fst (calls (finish n m logged st)))
             /\ Forall valid_message (messages (finish n m logged st))).
  { intros n m logged Ht. simpl.
    rewrite RequestFacts.map_fst_set_point. split; trivial.
    apply Forall_app. split; trivial. constructor; [|constructor].
    unfold valid_message. congruence. }
  destruct e as [c t | c f | c b d | c n r | c n r]; simpl in He.
  - injection He as <-. now apply Hb.
  - injection He as <-. unfold selectFile.
    destruct (FileUpload.handleFileSelect f) as [notice | f'] eqn:Hs.
    + now split.
    + apply Hb. simpl. now apply (handed_on_is_valid f).
  - injection He as <-. now apply Hb.
  - destruct (nth_error (calls st) n) as [[k [| |]]|]; try discriminate.
    injection He as <-. unfold after_fetch, catch.
    destruct r as [err | status statusText];
      [|destruct (negb (Fetch.ok status))]; try now apply Hf.
    simpl. now rewrite RequestFacts.map_fst_set_point.
  - destruct (nth_error (calls st) n) as [[k [| |]]|]; try discriminate.
    injection He as <-. unfold after_json, catch.
    destruct r as [err | data]; [|destruct (JS.or_else _ _)];
      now apply Hf.
Qed.

Lemma valid_run tr : forall st st',
  run st tr = Some st' ->
  Forall valid_call (map fst (calls st)) /\ Forall valid_message (messages st) ->
  Forall valid_call (map fst (calls st'))
  /\ Forall valid_message (messages st').
Proof.
  induction tr as [|e tr IH]; intros st st' Hr Hi; simpl in Hr.
  - now injection Hr as <-.
  - destruct (step st e) as [mid|] eqn:He; [|discriminate].
    apply (IH mid); trivial. now apply (valid_step st e).
Qed.

(** X15.  In every session each file that was sent to the backend had
    passed the validation (at most 10 MiB, a type of the list), and each
    file message in the store shows a size within the limit. *)
Theorem only_valid_files_are_sent (d : Z) (tr : list event) (st : state) :
  run (init d) tr = Some st ->
  (forall r entries f,
      In r (requests st) ->
      Fetch.payload r = Fetch.FormData entries ->
      In ("file", Fetch.FilePart f) entries ->
      File.size f <= 10 * 1024 * 1024
      /\ In (File.type f) FileUpload.allowedTypes)
  /\ (forall m,
        In m (messages st) -> type m = file ->
        exists n, fileSize m = Some n /\ n <= 10 * 1024 * 1024).
Proof.
  intros Hr.
  destruct (valid_run tr (init d) st Hr) as [Hc Hm].
  { split; [constructor|]. constructor; [|constructor].
    unfold valid_message. simpl. discriminate. }
  split.
  - intros r entries f Hin Hp Hf.
    destruct (RequestFacts.run_requests tr (init d) st Hr eq_refl) as [Hq _].
    unfold one_request_each in Hq. rewrite Hq in Hin.
    apply in_map_iff in Hin as (k & <- & Hk).
    rewrite Forall_forall in Hc. specialize (Hc k Hk).
    destruct k as [t | f0 | b a]; simpl in Hp; try discriminate.
    + injection Hp as <-.
      destruct Hf as [[= <-]|[H|[]]]; [exact Hc | discriminate].
    + injection Hp as <-.
      destruct Hf as [H|[H|[H|[]]]]; discriminate.
  - intros m Hin. rewrite Forall_forall in Hm. now apply Hm.
Qed.

Lemma only_valid_files_are_sent_witness :
  exists st,
    run (init 0) one_by_one = Some st
    /\ nth_error (requests st) 1
       = Some (request_of (InFileUpload notes))
    /\ File.size notes <= 10 * 1024 * 1024
    /\ In (File.type notes) FileUpload.allowedTypes.
Proof.
  eexists. split; [vm_compute; reflexivity|]. split; [reflexivity|].
  destruct (only_valid_files_are_sent 0 one_by_one _ eq_refl) as [Hs _].
  apply (Hs (request_of (InFileUpload notes))
            [("file", Fetch.FilePart notes); ("type", Fetch.Field "file")]).
  - simpl. auto.
  - reflexivity.
  - simpl. auto.
Defined.

End FileControlFacts.

(* ================================================================== *)
(** ** More on the audio recorder: streams, timers, a whole recording *)

Module RecorderFacts.
Import AudioRecorder AudioRecorderFacts.

Local Open Scope nat_scope.

Lemma recorder_stop_keeps r d d' :
  recorder_stop r d = Some d' ->
  streams d' = streams d /\ track_stops d' = track_stops d
  /\ intervals d' = intervals d /\ timers_made d' = timers_made d.
Proof.
  unfold recorder_stop. destruct (nth_error (recorders d) r) as [m|];
    [|discriminate]. destruct (state m); [discriminate|].
  now intros [= <-].
Qed.

Lemma timer_kept_step w e w' :
  prompt_event e = true ->
  timer_kept w -> step w e = Some w' -> timer_kept w'.
Proof.
  unfold timer_kept, step. intros Hp Hk He.
  destruct e as [ | p | now p | | r chunk | now r | | | | now p ];
    try discriminate Hp.
  - destruct (life w); try discriminate. injection He as <-. exact Hk.
  - assert (E : w' = checkMicrophonePermission p w)
      by (destruct (life w); congruence).
    subst w'. destruct p; simpl; exact Hk.
  - destruct (life w) eqn:Hl; try discriminate.
    destruct (isRecording (st w)) eqn:Hrec; [discriminate|].
    injection He as <-. destruct Hk as [Ht Hi].
    destruct p; simpl; rewrite Hl, ?Hrec.
    + rewrite Hi. simpl. eauto.
    + now split.
  - destruct (life w) eqn:Hl; try discriminate.
    destruct (isRecording (st w)); [|discriminate].
    destruct Hk as (t & r & Ht & Hi & Hr).
    unfold stopRecording in He. rewrite Hr in He.
    destruct (recorder_stop r (dev w)) as [d|] eqn:Hd; [|discriminate].
    injection He as <-. simpl. rewrite Hl, Ht. simpl.
    destruct (recorder_stop_keeps _ _ _ Hd) as (_ & _ & Hi' & _).
    rewrite Hi', Hi. simpl. now rewrite Nat.eqb_refl.
  - assert (E : w' = ondataavailable chunk w)
      by (destruct (life w), (nth_error _ _); congruence).
    subst w'. unfold ondataavailable.
    destruct (Blob.size chunk >? 0)%Z; simpl; exact Hk.
  - assert (exists m, w' = onstop now r m w) as [m ->].
    { destruct (life w), (nth_error _ _) as [m|]; try discriminate;
        destruct (stop_queued m); try discriminate;
        injection He as <-; eauto. }
    simpl. destruct (streamRef (rf w)); simpl; exact Hk.
  - assert (E : w' = tick w)
      by (destruct (life w), (intervals (dev w)); congruence).
    subst w'. simpl. exact Hk.
  - destruct (life w) eqn:Hl; try discriminate.
    assert (Hc : intervals
                   (match timerRef (rf w) with
                    | Some t => clearInterval t (dev w)
                    | None => dev w
                    end) = []).
    { destruct (isRecording (st w)).
      - destruct Hk as (t & r & -> & Hi & _). simpl. rewrite Hi. simpl.
        now rewrite Nat.eqb_refl.
      - destruct Hk as (-> & Hi). exact Hi. }
    unfold run_cleanup, stopRecording in He. simpl in He.
    destruct (mediaRecorderRef (rf w)) as [r|];
      [destruct cleanup_sees|]; try (injection He as <-; exact Hc).
    destruct (recorder_stop r _) as [d|] eqn:Hd; [|discriminate].
    injection He as <-. simpl.
    destruct (recorder_stop_keeps _ _ _ Hd) as (_ & _ & Hi' & _).
    destruct (timerRef (rf w)); simpl; rewrite Hi', Hc; reflexivity.
Qed.

Lemma filter_below (t bound : nat) (l : list nat) :
  Forall (fun x => x < bound) l ->
  Forall (fun x => x < bound) (filter (fun x => negb (Nat.eqb x t)) l).
Proof.
  induction 1 as [|x l Hx Hl IH]; simpl; [constructor|].
  destruct (negb (Nat.eqb x t)); [constructor|]; trivial.
Qed.

Lemma timers_numbered_step w e w' :
  timers_numbered w -> step w e = Some w' -> timers_numbered w'.
Proof.
  unfold timers_numbered, step. intros Hk He.
  assert (Hstart : forall now p v,
             intervals (dev v) = intervals (dev w) ->
             timers_made (dev v) = timers_made (dev w) ->
             Forall (fun t => t < timers_made (dev (startRecording now p v)))
                    (intervals (dev (startRecording now p v)))).
  { intros now p v Hi Ht. destruct p; simpl; rewrite Hi, Ht; trivial.
    apply Forall_app. split.
    - eapply Forall_impl; [|exact Hk]. simpl. intros; lia.
    - constructor; [lia | constructor]. }
  assert (Hstop : forall seen v w0,
             intervals (dev v) = intervals (dev w) \/
             (exists t, intervals (dev v)
                        = filter (fun x => negb (Nat.eqb x t))
                            (intervals (dev w))) ->
             timers_made (dev v) = timers_made (dev w) ->
             stopRecording seen v = Some w0 ->
             Forall (fun t => t < timers_made (dev w0)) (intervals (dev w0))).
  { intros seen v w0 Hi Ht Hs.
    assert (Hv : Forall (fun t => t < timers_made (dev v)) (intervals (dev v))).
    { rewrite Ht. destruct Hi as [-> | [t ->]]; trivial.
      now apply filter_below. }
    unfold stopRecording in Hs.
    destruct (mediaRecorderRef (rf v)) as [r|];
      [destruct seen|]; try (injection Hs as <-; exact Hv).
    destruct (recorder_stop r (dev v)) as [d|] eqn:Hd; [|discriminate].
    destruct (recorder_stop_keeps _ _ _ Hd) as (_ & _ & Hi' & Ht').
    injection Hs as <-. simpl.
    destruct (timerRef (rf v)); simpl; rewrite Hi', Ht'; trivial.
    now apply filter_below. }
  destruct e as [ | p | now p | | r chunk | now r | | | | now p ].
  - destruct (life w); try discriminate. injection He as <-. exact Hk.
  - assert (E : w' = checkMicrophonePermission p w)
      by (destruct (life w); congruence).
    subst w'. destruct p; simpl; exact Hk.
  - destruct (life w); try discriminate.
    destruct (isRecording (st w)); [discriminate|].
    injection He as <-. now apply Hstart.
  - destruct (life w); try discriminate.
    destruct (isRecording (st w)); [|discriminate].
    apply (Hstop true w w'); auto.
  - assert (E : w' = ondataavailable chunk w)
      by (destruct (life w), (nth_error _ _); congruence).
    subst w'. unfold ondataavailable.
    destruct (Blob.size chunk >? 0)%Z; simpl; exact Hk.
  - assert (exists m, w' = onstop now r m w) as [m ->].
    { destruct (life w), (nth_error _ _) as [m|]; try discriminate;
        destruct (stop_queued m); try discriminate;
        injection He as <-; eauto. }
    simpl. destruct (streamRef (rf w)); simpl; exact Hk.
  - assert (E : w' = tick w)
      by (destruct (life w), (intervals (dev w)); congruence).
    subst w'. simpl. exact Hk.
  - destruct (life w); try discriminate.
    unfold run_cleanup in He.
    eapply (Hstop _ _ w'); [| |exact He]; simpl.
    + destruct (timerRef (rf w)) as [t|]; [right; exists t|left]; reflexivity.
    + now destruct (timerRef (rf w)).
  - destruct (life w); try discriminate.
    destruct (isRecording (st w)); [discriminate|].
    injection He as <-. exact Hk.
  - assert (exists k, w' = startRecording now p (resume k w)) as [k ->]
      by (destruct (life w), (starting w); try discriminate;
          injection He as <-; eauto).
    now apply Hstart.
Qed.

Lemma NoDup_snoc (l : list nat) (x : nat) :
  NoDup l -> ~ In x l -> NoDup (l ++ [x]).
Proof.
  induction 1 as [|a l Ha Hl IH]; simpl; intros Hx.
  - repeat constructor. intros [].
  - constructor.
    + rewrite in_app_iff. simpl. intuition congruence.
    + apply IH. intuition.
Qed.

Lemma streams_kept_step w e w' :
  streams_kept w -> step w e = Some w' -> streams_kept w'.
Proof.
  unfold streams_kept, step. intros (Hb & Hn & Hr) He.
  assert (Hnew : ~ In (streams (dev w)) (track_stops (dev w))).
  { intros Hin. rewrite Forall_forall in Hb. specialize (Hb _ Hin). lia. }
  assert (Hb' : Forall (fun s => s < S (streams (dev w)))
                       (track_stops (dev w)))
    by (eapply Forall_impl; [|exact Hb]; simpl; intros; lia).
  destruct e as [ | p | now p | | r chunk | now r | | | | now p ].
  - destruct (life w); try discriminate. now injection He as <-.
  - assert (E : w' = checkMicrophonePermission p w)
      by (destruct (life w); congruence).
    subst w'. destruct p; simpl; [|(split; [|split]; assumption)].
    split; [|split].
    + apply Forall_app. split; trivial. constructor; [lia | constructor].
    + now apply NoDup_snoc.
    + intros s Hs. destruct (Hr s Hs) as [Hlt Hnin]. split; [lia|].
      rewrite in_app_iff. intros [H|[H|[]]]; [contradiction | lia].
  - destruct (life w); try discriminate.
    destruct (isRecording (st w)); [discriminate|].
    injection He as <-. destruct p; simpl; [|(split; [|split]; assumption)].
    split; [|split]; trivial.
    intros s [= <-]. split; [lia | exact Hnew].
  - destruct (life w); try discriminate.
    destruct (isRecording (st w)); [|discriminate].
    unfold stopRecording in He.
    destruct (mediaRecorderRef (rf w)) as [r|];
      [|injection He as <-; (split; [|split]; assumption)].
    destruct (recorder_stop r (dev w)) as [d|] eqn:Hd; [|discriminate].
    destruct (recorder_stop_keeps _ _ _ Hd) as (Hs' & Ht' & _ & _).
    injection He as <-. simpl.
    destruct (timerRef (rf w)); simpl; rewrite Hs', Ht'; (split; [|split]; assumption).
  - assert (E : w' = ondataavailable chunk w)
      by (destruct (life w), (nth_error _ _); congruence).
    subst w'. unfold ondataavailable.
    destruct (Blob.size chunk >? 0)%Z; simpl; (split; [|split]; assumption).
  - assert (exists m, w' = onstop now r m w) as [m ->].
    { destruct (life w), (nth_error _ _) as [m|]; try discriminate;
        destruct (stop_queued m); try discriminate;
        injection He as <-; eauto. }
    simpl. destruct (streamRef (rf w)) as [s|] eqn:Hs; simpl.
    + destruct (Hr s eq_refl) as [Hlt Hnin]. split; [|split].
      * apply Forall_app. split; trivial. constructor; [lia | constructor].
      * now apply NoDup_snoc.
      * discriminate.
    + split; [|split]; trivial; discriminate.
  - assert (E : w' = tick w)
      by (destruct (life w), (intervals (dev w)); congruence).
    subst w'. simpl. (split; [|split]; assumption).
  - destruct (life w); try discriminate.
    unfold run_cleanup, stopRecording in He. simpl in He.
    assert (Hc : forall d0,
               d0 = match timerRef (rf w) with
                    | Some t => clearInterval t (dev w)
                    | None => dev w
                    end ->
               streams d0 = streams (dev w)
               /\ track_stops d0 = track_stops (dev w))
      by (intros d0 ->; destruct (timerRef (rf w)); now split).
    destruct (Hc _ eq_refl) as [Hc1 Hc2].
    destruct (mediaRecorderRef (rf w)) as [r|];
      [destruct cleanup_sees|];
      try (injection He as <-; simpl; rewrite Hc1, Hc2; (split; [|split]; assumption)).
    destruct (recorder_stop r _) as [d|] eqn:Hd; [|discriminate].
    destruct (recorder_stop_keeps _ _ _ Hd) as (Hs' & Ht' & _ & _).
    injection He as <-. simpl.
    destruct (timerRef (rf w)); simpl in *; rewrite Hs', Ht';
      (split; [|split]; assumption).
  - destruct (life w); try discriminate.
    destruct (isRecording (st w)); [discriminate|].
    injection He as <-. simpl. split; [|split]; assumption.
  - assert (exists k, w' = startRecording now p (resume k w)) as [k ->]
      by (destruct (life w), (starting w); try discriminate;
          injection He as <-; eauto).
    destruct p; simpl; [|(split; [|split]; assumption)].
    split; [|split]; trivial.
    intros s [= <-]. split; [lia | exact Hnew].
Qed.

Lemma kept_run tr : forall w w',
  streams_kept w /\ timers_numbered w -> run w tr = Some w' ->
  streams_kept w' /\ timers_numbered w'.
Proof.
  induction tr as [|e tr IH]; intros w w' Hw Hr; simpl in Hr.
  - now injection Hr as <-.
  - destruct (step w e) as [mid|] eqn:He; [|discriminate].
    apply (IH mid); trivial. destruct Hw as [Hs Ht]. split.
    + now apply (streams_kept_step w e).
    + now apply (timers_numbered_step w e).
Qed.

Lemma kept_from_start tr w :
  run unmounted tr = Some w -> streams_kept w /\ timers_numbered w.
Proof.
  apply kept_run. split.
  - split; [constructor|]. split; [constructor|]. discriminate.
  - constructor.
Qed.

Lemma timer_kept_run tr : forall w w',
  prompt tr = true -> timer_kept w -> run w tr = Some w' -> timer_kept w'.
Proof.
  induction tr as [|e tr IH]; intros w w' Hp Hw Hr; simpl in Hr.
  - now injection Hr as <-.
  - destruct (step w e) as [mid|] eqn:He; [|discriminate].
    simpl in Hp. apply andb_prop in Hp as [Hp1 Hp2].
    apply (IH mid); trivial. now apply (timer_kept_step w e).
Qed.

(** X7.  In every session no stream is released twice; a released stream
    is one that was opened; and the stream which [streamRef] holds has not
    been released. *)
Theorem no_stream_is_released_twice (tr : list event) (w : world) (s : nat) :
  run unmounted tr = Some w ->
  releases s w <= 1
  /\ (releases s w = 1 -> s < streams (dev w))
  /\ (streamRef (rf w) = Some s -> releases s w = 0).
Proof.
  intros Hr. destruct (kept_from_start tr w Hr) as ((Hb & Hn & Hs) & _).
  unfold releases. split; [|split].
  - now apply NoDup_count_occ.
  - intros H1.
    assert (Hin : In s (track_stops (dev w)))
      by (apply (count_occ_In Nat.eq_dec); lia).
    rewrite Forall_forall in Hb. now apply Hb.
  - intros Href. apply count_occ_not_In. now apply Hs.
Qed.

Lemma no_stream_is_released_twice_witness :
  exists w,
    run unmounted stopped_by_button = Some w
    /\ releases 0 w <= 1 /\ releases 1 w <= 1.
Proof.
  eexists. split; [vm_compute; reflexivity|]. split.
  - apply (no_stream_is_released_twice stopped_by_button _ 0 eq_refl).
  - apply (no_stream_is_released_twice stopped_by_button _ 1 eq_refl).
Defined.

(** X8.  In every session in which each promise of [getUserMedia]
    made by a click on record settles before anything else happens, the
    elapsed-time timer runs exactly while a mounted component records: no
    interval is active when it does not record, one is while it does, and
    after the teardown none is left, so no tick can happen any more. *)
Theorem timer_runs_only_while_recording (tr : list event) (w : world) :
  run unmounted tr = Some w ->
  prompt tr = true ->
  (life w = Gone -> intervals (dev w) = [] /\ step w Tick = None)
  /\ (life w <> Gone -> isRecording (st w) = false ->
      intervals (dev w) = [] /\ timerRef (rf w) = None)
  /\ (life w <> Gone -> isRecording (st w) = true ->
      exists t, intervals (dev w) = [t] /\ timerRef (rf w) = Some t).
Proof.
  intros Hr Hp.
  assert (Ht : timer_kept w)
    by (apply (timer_kept_run tr unmounted); trivial; now split).
  unfold timer_kept in Ht. split; [|split].
  - intros Hl. rewrite Hl in Ht. split; trivial.
    unfold step. simpl. now rewrite Ht.
  - intros Hl Hrec. rewrite Hrec in Ht.
    destruct (life w); try congruence; now destruct Ht.
  - intros Hl Hrec. rewrite Hrec in Ht.
    destruct (life w); try congruence;
      destruct Ht as (t & r & H1 & H2 & _); eauto.
Qed.

Lemma timer_runs_only_while_recording_witness :
  exists w,
    run unmounted teardown_while_recording = Some w
    /\ intervals (dev w) = [] /\ step w Tick = None.
Proof.
  eexists. split; [vm_compute; reflexivity|].
  apply (timer_runs_only_while_recording teardown_while_recording _ eq_refl);
    reflexivity.
Defined.

(** Without that, a timer can outlive the component: a grant that
    arrives after the teardown starts a recorder, a stream and a timer. *)
Remark timer_outlives_teardown :
  exists w,
    run unmounted granted_after_teardown = Some w
    /\ life w = Gone
    /\ intervals (dev w) = [0]
    /\ nth_error (recorders (dev w)) 0
       = Some {| stream := 0; state := recording; stop_queued := false |}
    /\ releases 0 w = 0.
Proof.
  eexists. split; [vm_compute; reflexivity|]. repeat split.
Qed.

(** The click whose promise settles at once is the click followed by the
    settlement. *)
Lemma RecordClicked_is_press_then_settle (w : world) (now : Z)
  (p : permission) :
  step w (RecordClicked now p) = run w [RecordPressed; MediaSettled now p].
Proof.
  unfold run, step. destruct (life w); trivial.
  destruct (isRecording (st w)); reflexivity.
Qed.

Lemma recorder_run_app w tr1 tr2 :
  run w (tr1 ++ tr2) =
  match run w tr1 with
  | Some mid => run mid tr2
  | None => None
  end.
Proof.
  revert w. induction tr1 as [|e tr1 IH]; intros w; simpl; [reflexivity|].
  destruct (step w e); [apply IH | reflexivity].
Qed.

Lemma carried_refl w : carried [] 0 w w.
Proof.
  unfold carried. rewrite app_nil_r, Z.add_0_r. repeat split.
Qed.

Lemma ticks_of_nonneg xs : (0 <= ticks_of xs)%Z.
Proof.
  induction xs as [|[c|] xs IH]; cbn [ticks_of]; lia.
Qed.

(** While data arrives and the timer ticks, only the chunks and the
    displayed time change. *)
Lemma run_during r xs : forall w m,
  nth_error (recorders (dev w)) r = Some m ->
  (ticks_of xs <> 0%Z -> intervals (dev w) <> []) ->
  exists w',
    run w (during r xs) = Some w'
    /\ carried (kept (chunks_of xs)) (ticks_of xs) w w'.
Proof.
  induction xs as [|[chunk|] xs IH]; intros w m Hm Hi.
  - exists w. split; [reflexivity | apply carried_refl].
  - assert (Hs : step w (DataAvailable r chunk)
                 = Some (ondataavailable chunk w)).
    { unfold step. simpl. rewrite Hm. now destruct (life w). }
    unfold during. cbn [map run]. fold (during r xs). rewrite Hs.
    cbn [chunks_of ticks_of].
    destruct (IH (ondataavailable chunk w) m) as (w' & Hr & Hc).
    + unfold ondataavailable. now destruct (Blob.size chunk >? 0)%Z.
    + unfold ondataavailable. now destruct (Blob.size chunk >? 0)%Z.
    + exists w'. split; trivial.
      unfold carried in *. unfold ondataavailable in Hc.
      unfold kept in *. cbn [filter].
      destruct (Blob.size chunk >? 0)%Z; simpl in *;
        decompose [and] Hc; repeat split; trivial.
      now rewrite <- app_assoc in *.
  - pose proof (ticks_of_nonneg xs) as Hn.
    assert (Hne : intervals (dev w) <> []) by (apply Hi; cbn [ticks_of]; lia).
    assert (Hs : step w Tick = Some (tick w)).
    { unfold step. destruct (intervals (dev w)); [congruence|].
      now destruct (life w). }
    unfold during. cbn [map run]. fold (during r xs). rewrite Hs.
    cbn [chunks_of ticks_of].
    destruct (IH (tick w) m Hm (fun _ => Hne)) as (w' & Hr & Hc).
    exists w'. split; trivial.
    unfold carried in *. cbn [tick st rf dev life uploads console
                              isRecording recordingTime hasPermission] in Hc.
    decompose [and] Hc; repeat split; trivial. lia.
Qed.

Lemma nth_error_snoc (l : list MediaRecorder) (m : MediaRecorder) :
  nth_error (l ++ [m]) (List.length l) = Some m.
Proof.
  rewrite nth_error_app2 by lia. now rewrite Nat.sub_diag.
Qed.

Lemma nth_update_recorder l : forall r m0 m,
  nth_error l r = Some m0 ->
  nth_error (update_recorder r m l) r = Some m.
Proof.
  induction l as [|x l IH]; intros [|r] m0 m H; simpl in *;
    try discriminate; trivial.
  now apply (IH r m0).
Qed.

Lemma during_data r chunks :
  during r (map Some chunks) = map (DataAvailable r) chunks
  /\ chunks_of (map Some chunks) = chunks
  /\ ticks_of (map Some chunks) = 0%Z.
Proof.
  unfold during. rewrite map_map. split; [reflexivity|].
  induction chunks as [|c l [IH1 IH2]]; [now split|].
  cbn [map chunks_of ticks_of]. now rewrite IH1, IH2.
Qed.

(** The click on the button while recorder [r] records. *)
Lemma stop_click w b r m :
  life w = Mounted b -> isRecording (st w) = true ->
  mediaRecorderRef (rf w) = Some r ->
  nth_error (recorders (dev w)) r = Some m -> state m = recording ->
  exists w',
    step w StopClicked = Some w'
    /\ life w' = Mounted b
    /\ uploads w' = uploads w
    /\ isRecording (st w') = false
    /\ audioChunksRef (rf w') = audioChunksRef (rf w)
    /\ streamRef (rf w') = streamRef (rf w)
    /\ startTimeRef (rf w') = startTimeRef (rf w)
    /\ track_stops (dev w') = track_stops (dev w)
    /\ nth_error (recorders (dev w')) r
       = Some {| stream := stream m; state := inactive; stop_queued := true |}
    /\ intervals (dev w')
       = match timerRef (rf w) with
         | Some t => filter (fun t' => negb (Nat.eqb t' t)) (intervals (dev w))
         | None => intervals (dev w)
         end.
Proof.
  intros Hl Hrec Href Hm Hs.
  unfold step. rewrite Hl, Hrec. unfold stopRecording, recorder_stop.
  rewrite Href, Hm, Hs. eexists. split; [reflexivity|].
  pose proof (nth_update_recorder (recorders (dev w)) r m
                {| stream := stream m; state := inactive;
                   stop_queued := true |} Hm) as Hu.
  destruct (timerRef (rf w)); simpl; rewrite Hu, Hl; repeat split.
Qed.

(** X6.  One whole recording, from any session in which the component
    is mounted and idle: whatever data and ticks arrive, stopping with the
    button hands exactly one clip to [onAudioUpload], made of the
    non-empty chunks in their order, with the duration taken from the
    clock readings at start and stop (not from the ticks); the stream
    opened for the recording is released once, [streamRef] is cleared,
    and the timer of the recording is cleared: the timers that run
    afterwards are those that ran before. *)
Theorem whole_recording_uploads_once (pre : list event) (w : world) (b : bool)
  (t0 t1 : Z) (xs : list (option Blob.t)) (last_chunks : list Blob.t) :
  run unmounted pre = Some w ->
  life w = Mounted b ->
  isRecording (st w) = false ->
  exists w',
    run w (whole_recording t0 t1 (List.length (recorders (dev w))) xs
             last_chunks) = Some w'
    /\ uploads w'
       = uploads w
         ++ [(concat_chunks (kept (chunks_of xs ++ last_chunks)),
              {| JS.millis := t1 - t0 |})]
    /\ track_stops (dev w') = track_stops (dev w) ++ [streams (dev w)]
    /\ releases (streams (dev w)) w' = 1
    /\ streamRef (rf w') = None
    /\ isRecording (st w') = false
    /\ intervals (dev w') = intervals (dev w)
    /\ life w' = Mounted b.
Proof.
  intros Hpre Hl Hrec.
  destruct (kept_from_start pre w Hpre) as ((Hb & _ & _) & Htn).
  set (r := List.length (recorders (dev w))).
  set (m := {| stream := streams (dev w); state := recording;
               stop_queued := false |}).
  unfold whole_recording. cbn [run]. unfold step at 1. rewrite Hl, Hrec.
  set (w1 := startRecording t0 Granted w).
  assert (Hm1 : nth_error (recorders (dev w1)) r = Some m)
    by apply nth_error_snoc.
  assert (Hi1 : intervals (dev w1)
                = intervals (dev w) ++ [timers_made (dev w)])
    by reflexivity.
  rewrite recorder_run_app.
  destruct (run_during r xs w1 m Hm1) as (w2 & Hr2 & C2).
  { intros _. rewrite Hi1. now destruct (intervals (dev w)). }
  rewrite Hr2.
  destruct C2 as (L2 & D2 & U2 & _ & R2 & _ & _ & MR2 & SR2 & ST2 & TR2 & CH2).
  assert (Hm2 : nth_error (recorders (dev w2)) r = Some m)
    by (rewrite D2; exact Hm1).
  destruct (stop_click w2 b r m)
    as (w3 & Hs3 & L3 & U3 & R3 & CH3 & SR3 & ST3 & TS3 & Hm3 & I3);
    trivial.
  { now rewrite L2. }
  cbn [run]. rewrite Hs3.
  rewrite recorder_run_app.
  destruct (during_data r last_chunks) as (Ed & Ec & Et). rewrite <- Ed.
  destruct (run_during r (map Some last_chunks) w3 _ Hm3)
    as (w4 & Hr4 & C4).
  { rewrite Et. congruence. }
  rewrite Hr4. rewrite Ec in C4.
  destruct C4 as (L4 & D4 & U4 & _ & R4 & _ & _ & _ & SR4 & ST4 & _ & CH4).
  assert (Hm4 : nth_error (recorders (dev w4)) r
                = Some {| stream := stream m; state := inactive;
                          stop_queued := true |})
    by (rewrite D4; exact Hm3).
  assert (Hs4 : step w4 (StopFired t1 r)
                = Some (onstop t1 r {| stream := stream m; state := inactive;
                                       stop_queued := true |} w4)).
  { unfold step. simpl. rewrite Hm4. now destruct (life w4). }
  cbn [run]. rewrite Hs4.
  eexists. split; [reflexivity|].
  assert (Hsr : streamRef (rf w4) = Some (streams (dev w)))
    by (rewrite SR4, SR3, SR2; reflexivity).
  assert (Hts : track_stops (dev w4) = track_stops (dev w))
    by (rewrite D4, TS3, D2; reflexivity).
  assert (Hup : uploads w4 = uploads w)
    by (rewrite U4, U3, U2; reflexivity).
  assert (Hch : audioChunksRef (rf w4)
                = kept (chunks_of xs ++ last_chunks)).
  { rewrite CH4, CH3, CH2. unfold kept. now rewrite filter_app. }
  assert (Hst : startTimeRef (rf w4) = t0)
    by (rewrite ST4, ST3, ST2; reflexivity).
  assert (Hiv : intervals (dev w4) = intervals (dev w)).
  { rewrite D4, I3, TR2, D2, Hi1. simpl. rewrite filter_app. simpl.
    rewrite Nat.eqb_refl. simpl. rewrite app_nil_r.
    unfold timers_numbered in Htn. clear - Htn.
    induction Htn as [|x l Hx Hl IH]; simpl; trivial.
    replace (Nat.eqb x (timers_made (dev w))) with false
      by (symmetry; apply Nat.eqb_neq; lia).
    simpl. now rewrite IH. }
  assert (Hrel : releases (streams (dev w)) w = 0).
  { unfold releases. apply count_occ_not_In. intros Hin'.
    rewrite Forall_forall in Hb. specialize (Hb _ Hin'). lia. }
  unfold releases in *. simpl. rewrite Hsr. simpl.
  rewrite Hts, Hup, Hch, Hst, Hiv, L4, L3, R4, R3.
  repeat split. rewrite count_occ_app, Hrel. simpl.
  now destruct (Nat.eq_dec (streams (dev w)) (streams (dev w))).
Qed.

Lemma whole_recording_uploads_once_witness :
  exists w w',
    run unmounted ready = Some w
    /\ run w (whole_recording 1000 3300 0
                [Some chunk_a; None; Some empty_chunk; None] [chunk_b])
       = Some w'
    /\ uploads w'
       = [({| Blob.data := [x1a; x45; xdf]; Blob.type := "audio/webm" |},
           {| JS.millis := 2300 |})]
    /\ releases 1 w' = 1.
Proof.
  eexists.
  destruct (whole_recording_uploads_once ready
              (checkMicrophonePermission Granted (mount unmounted)) false
              1000 3300 [Some chunk_a; None; Some empty_chunk; None]
              [chunk_b] eq_refl eq_refl eq_refl)
    as (w' & Hr & Hu & _ & Hrel & _).
  exists w'. split; [reflexivity|]. split; [exact Hr|].
  split; [rewrite Hu; reflexivity | exact Hrel].
Defined.

Lemma teardown_stops_nothing_witness :
  exists w w',
    run unmounted (firstn 4 teardown_while_recording) = Some w
    /\ step w Unmount = Some w'
    /\ isRecording (st w) = true
    /\ recorders (dev w') = recorders (dev w)
    /\ track_stops (dev w') = track_stops (dev w).
Proof.
  eexists; eexists. split; [vm_compute; reflexivity|].
  split; [vm_compute; reflexivity|]. split; [reflexivity|].
  apply (teardown_stops_nothing (firstn 4 teardown_while_recording));
    reflexivity.
Defined.

Lemma nth_update_recorder_other l : forall r r' m,
  r <> r' -> nth_error (update_recorder r' m l) r = nth_error l r.
Proof.
  induction l as [|x l IH]; intros [|r] [|r'] m H; simpl; trivial.
  - congruence.
  - apply IH. congruence.
Qed.

Lemma left_running_step t r s w e w' :
  left_running t r s w -> step w e = Some w' -> left_running t r s w'.
Proof.
  unfold left_running, step. intros (Hl & Ht & Hr) He. rewrite Hl in He.
  destruct e as [ | p | now p | | r0 chunk | now r0 | | | | now p ];
    try discriminate.
  - injection He as <-. destruct p; simpl; auto.
  - destruct (nth_error (recorders (dev w)) r0); [|discriminate].
    injection He as <-. unfold ondataavailable.
    destruct (Blob.size chunk >? 0)%Z; simpl; auto.
  - destruct (nth_error (recorders (dev w)) r0) as [m|] eqn:Hm;
      [|discriminate].
    destruct (stop_queued m) eqn:Hq; [|discriminate].
    injection He as <-.
    assert (Hne : r <> r0) by (intros ->; rewrite Hr in Hm;
                               injection Hm as <-; discriminate).
    simpl. destruct (streamRef (rf w)); simpl;
      rewrite nth_update_recorder_other by exact Hne; auto.
  - assert (E : w' = tick w)
      by (destruct (intervals (dev w)); congruence).
    subst w'. simpl. auto.
  - destruct (starting w) as [|k]; [discriminate|].
    injection He as <-. destruct p; simpl; auto.
    split; trivial. split; [apply in_or_app; now left|].
    rewrite nth_error_app1; trivial.
    apply nth_error_Some. congruence.
Qed.

Lemma left_running_run t r s tr : forall w w',
  left_running t r s w -> run w tr = Some w' -> left_running t r s w'.
Proof.
  induction tr as [|e tr IH]; intros w w' Hw Hr; simpl in Hr.
  - now injection Hr as <-.
  - destruct (step w e) as [mid|] eqn:He; [|discriminate].
    apply (IH mid); trivial. now apply (left_running_step t r s w e).
Qed.

(** X16.  When the component is torn down while a click on record waits
    for [getUserMedia] and the permission is granted afterwards, the
    suspended [startRecording] still runs and starts a timer, which stays
    active whatever happens afterwards; and if no [stop] event was queued
    at that moment, the recorder it starts keeps recording and the stream
    it opens is never released. *)
Theorem grant_after_teardown_is_never_undone (w w' w'' : world) (now : Z)
  (rest : list event) :
  life w = Gone ->
  step w (MediaSettled now Granted) = Some w' ->
  run w' rest = Some w'' ->
  In (timers_made (dev w)) (intervals (dev w''))
  /\ life w'' = Gone
  /\ (Forall (fun m => stop_queued m = false) (recorders (dev w)) ->
      (exists pre, run unmounted pre = Some w) ->
      nth_error (recorders (dev w'')) (List.length (recorders (dev w)))
      = Some {| stream := streams (dev w); state := recording;
                stop_queued := false |}
      /\ releases (streams (dev w)) w'' = 0).
Proof.
  intros Hl He Hr. unfold step in He.
  destruct (starting w) as [|k]; [discriminate|].
  assert (E : w' = startRecording now Granted (resume k w)) by congruence.
  subst w'. clear He.
  assert (Hinv : left_running (timers_made (dev w))
                   (List.length (recorders (dev w))) (streams (dev w))
                   (startRecording now Granted (resume k w))).
  { split; [exact Hl|]. simpl. split.
    - apply in_or_app. right. now left.
    - apply nth_error_snoc. }
  destruct (left_running_run _ _ _ rest _ w'' Hinv Hr) as (H1 & H2 & H3).
  split; [exact H2|]. split; [exact H1|].
  intros Hq [pre Hpre]. split; [exact H3|].
  destruct (kept_from_start pre w Hpre) as ((Hb & _ & _) & _).
  refine (proj2 (proj2 (proj2
            (abandoned_run (streams (dev w)) rest _ w'' _ Hr)))).
  unfold abandoned, releases. simpl. split; [exact Hl|]. split; [|split].
  - apply Forall_app. split; trivial. now repeat constructor.
  - lia.
  - apply count_occ_not_In. intros Hin.
    rewrite Forall_forall in Hb. specialize (Hb _ Hin). lia.
Qed.

Lemma grant_after_teardown_is_never_undone_witness :
  exists w w' w'',
    run unmounted (firstn 3 granted_after_teardown) = Some w
    /\ step w (MediaSettled 1000 Granted) = Some w'
    /\ run w' [DataAvailable 0 chunk_a; Tick; PermissionProbed Granted]
       = Some w''
    /\ In 0 (intervals (dev w''))
    /\ life w'' = Gone
    /\ releases 0 w'' = 0.
Proof.
  let x := eval vm_compute in
             (run unmounted (firstn 3 granted_after_teardown)) in
  match x with Some ?v => pose (w := v) end.
  let x := eval vm_compute in (step w (MediaSettled 1000 Granted)) in
  match x with Some ?v => pose (w' := v) end.
  let x := eval vm_compute in
             (run w' [DataAvailable 0 chunk_a; Tick;
                      PermissionProbed Granted]) in
  match x with Some ?v => pose (w'' := v) end.
  exists w, w', w''. split; [reflexivity|]. split; [reflexivity|].
  split; [reflexivity|].
  destruct (grant_after_teardown_is_never_undone w w' w'' 1000
              [DataAvailable 0 chunk_a; Tick; PermissionProbed Granted]
              eq_refl eq_refl eq_refl)
    as (H1 & H2 & H3).
  split; [exact H1|]. split; [exact H2|].
  apply H3; [constructor|].
  exists (firstn 3 granted_after_teardown). reflexivity.
Defined.

End RecorderFacts.

(* ================================================================== *)
(** ** The displayed times *)

Module TimeFacts.
Import AudioRecorder IdFacts.

Lemma length_append (s t : string) :
  String.length (s ++ t) = (String.length s + String.length t)%nat.
Proof.
  induction s as [|a s IH]; simpl; [reflexivity | now rewrite IH].
Qed.

Lemma append_same_suffix_length (s1 : string) : forall s2 t1 t2,
  (s1 ++ t1)%string = (s2 ++ t2)%string ->
  String.length t1 = String.length t2 ->
  s1 = s2 /\ t1 = t2.
Proof.
  induction s1 as [|a s1 IH]; intros [|b s2] t1 t2 H Hl; simpl in H.
  - now split.
  - subst t1. simpl in Hl. rewrite length_append in Hl. lia.
  - subst t2. simpl in Hl. rewrite length_append in Hl. lia.
  - injection H as -> H. destruct (IH _ _ _ H Hl) as [-> ->]. now split.
Qed.

Lemma Z_toString_injective (a b : Z) :
  JS.Z_toString a = JS.Z_toString b -> a = b.
Proof.
  intros H. pose proof (int_of_Z_toString a) as Ha.
  rewrite H, int_of_Z_toString in Ha. injection Ha as Ha.
  rewrite <- (DecimalZ.of_to a), <- (DecimalZ.of_to b). now rewrite Ha.
Qed.

(** The seconds field for 0 to 59: two characters that read back as the
    number. *)
Lemma seconds_field (n : nat) :
  (n < 60)%nat ->
  String.length (JS.padStart 2 "0" (JS.Z_toString (Z.of_nat n))) = 2%nat
  /\ match NilZero.int_of_string
             (JS.padStart 2 "0" (JS.Z_toString (Z.of_nat n))) with
     | Some i => Z.of_int i
     | None => -1
     end = Z.of_nat n.
Proof.
  intros H.
  do 60 (destruct n as [|n]; [vm_compute; split; reflexivity|]).
  lia.
Qed.

Lemma seconds_field_Z (x : Z) :
  0 <= x < 60 ->
  String.length (JS.padStart 2 "0" (JS.Z_toString x)) = 2%nat
  /\ match NilZero.int_of_string (JS.padStart 2 "0" (JS.Z_toString x)) with
     | Some i => Z.of_int i
     | None => -1
     end = x.
Proof.
  intros H. rewrite <- (Z2Nat.id x) by lia. apply seconds_field. lia.
Qed.

(** X10.  The elapsed time shown while recording tells the seconds
    apart: two different whole numbers of seconds are never shown as the
    same text; the seconds field always has two characters. *)
Theorem formatTime_injective (a b : Z) :
  0 <= a -> 0 <= b ->
  (formatTime a = formatTime b -> a = b)
  /\ String.length (formatTime a)
     = (String.length (JS.Z_toString (a / 60)) + 3)%nat.
Proof.
  intros Ha Hb. unfold formatTime. cbv zeta.
  rewrite !Z.rem_mod_nonneg by lia.
  destruct (seconds_field_Z (a mod 60)) as [La Pa];
    [apply Z.mod_pos_bound; lia|].
  destruct (seconds_field_Z (b mod 60)) as [Lb Pb];
    [apply Z.mod_pos_bound; lia|].
  split.
  - intros H. apply append_same_suffix_length in H.
    + destruct H as [Hm Hs]. apply Z_toString_injective in Hm.
      injection Hs as Hs. rewrite Hs in Pa. rewrite Pa in Pb.
      rewrite (Z.div_mod a 60), (Z.div_mod b 60) by lia. congruence.
    + simpl. now rewrite La, Lb.
  - rewrite length_append. simpl. now rewrite La.
Qed.

Lemma formatTime_injective_witness :
  formatTime 75 = "1:15" /\ String.length (formatTime 75) = 4%nat.
Proof.
  split; [reflexivity|].
  apply (formatTime_injective 75 75); lia.
Defined.

(** X11.  The duration shown on a voice message is the recorded
    duration cut down to whole seconds, in the format of the recorder's
    own display. *)
Theorem formatDuration_floors (d : JS.Seconds) :
  0 <= JS.millis d ->
  ChatMessage.formatDuration d = formatTime (JS.millis d / 1000).
Proof.
  intros H. unfold ChatMessage.formatDuration, formatTime. cbv zeta.
  assert (H0 : 0 <= JS.millis d / 1000) by (apply Z.div_pos; lia).
  rewrite !Z.rem_mod_nonneg by lia.
  rewrite Z.div_div by lia.
  change 60000 with (1000 * 60).
  rewrite Z.rem_mul_r by lia.
  rewrite (Z.mul_comm 1000 (_ mod 60)), Z.div_add by lia.
  rewrite (Z.div_small (JS.millis d mod 1000)) by (apply Z.mod_pos_bound; lia).
  reflexivity.
Qed.

Lemma formatDuration_floors_witness :
  ChatMessage.formatDuration {| JS.millis := 62300 |} = "1:02".
Proof.
  rewrite (formatDuration_floors {| JS.millis := 62300 |}); [reflexivity|].
  simpl. lia.
Defined.

End TimeFacts.

(* ================================================================== *)
(** ** More on the log relay *)

Module RelayFacts.
Import LogAnalysisService LogAnalysisFacts.

(** X12.  [analyzeLogs] returns a value exactly when the downstream
    service answers with a 2xx status and a body that parses, and then
    the value is that body, unchanged. *)
Theorem analyzeLogs_relays_the_body (logs : list string) (d : downstream)
  (data : JS.value) :
  snd (analyzeLogs logs d) = Return data
  <-> exists status statusText,
        fetched d = Fetch.Responded status statusText
        /\ Fetch.ok status = true
        /\ parsed d = Fetch.Parsed data.
Proof.
  unfold analyzeLogs, try_catch, bind, await_fetch, await_json. simpl.
  split.
  - destruct (fetched d) as [err | s t]; simpl; [discriminate|].
    destruct (Fetch.ok s) eqn:Hok; simpl; [|discriminate].
    destruct (parsed d) as [err | v]; simpl; [discriminate|].
    intros [= ->]. now exists s, t.
  - intros (s & t & -> & Hok & ->). simpl. now rewrite Hok.
Qed.

Lemma analyzeLogs_relays_the_body_witness :
  snd (analyzeLogs ["boot"; "panic"]
         {| fetched := Fetch.Responded 200 "OK";
            parsed := Fetch.Parsed (JS.JObj [("summary", JS.JStr "1 error")]) |})
  = Return (JS.JObj [("summary", JS.JStr "1 error")]).
Proof.
  apply analyzeLogs_relays_the_body. exists 200, "OK". repeat split.
Defined.

Lemma analyzeLogs_throws_500_witness :
  exists e,
    snd (analyzeLogs ["boot"]
           {| fetched := Fetch.Responded 200 "OK";
              parsed := Fetch.JsonRejected
                          {| JS.name := "SyntaxError";
                             JS.message := "Unexpected token < in JSON" |} |})
    = Throw e
    /\ e = Http {| response := "Failed to reach Python agent";
                   status := 500 |}.
Proof.
  eexists. split; [reflexivity|].
  apply (analyzeLogs_throws_500 ["boot"]
           {| fetched := Fetch.Responded 200 "OK";
              parsed := Fetch.JsonRejected
                          {| JS.name := "SyntaxError";
                             JS.message := "Unexpected token < in JSON" |} |}).
  reflexivity.
Defined.

(** X14.  The request tells the logs: two calls that send the same
    request were given the same array, and the request does not depend on
    what the downstream service does. *)
Theorem request_determines_logs (logs logs' : list string) (d d' : downstream) :
  fst (analyzeLogs logs d) = fst (analyzeLogs logs' d') <-> logs = logs'.
Proof.
  split; [|now intros ->].
  unfold analyzeLogs, request_of. simpl. intros [= H].
  revert logs' H. induction logs as [|l logs IH]; intros [|l' logs'] H;
    simpl in H; try discriminate; trivial.
  injection H as -> H. f_equal. now apply IH.
Qed.

Lemma request_determines_logs_witness :
  fst (analyzeLogs ["boot"] {| fetched := Fetch.Responded 200 "OK";
                               parsed := Fetch.Parsed JS.JNull |})
  = fst (analyzeLogs ["boot"] {| fetched := Fetch.Responded 500 "Oops";
                                 parsed := Fetch.Parsed JS.JNull |}).
Proof.
  now apply request_determines_logs.
Defined.

End RelayFacts.
